(** * A shallow embedding of the component registry

    The registry is a set of React view functions.  Each one is embedded as
    a Rocq function from its props (and the ambient contexts it reads) to
    the element it returns; imperative lifecycle code (effects, refs, the
    mapping engine) is embedded with explicit state passing.

    Part I holds the embedding, one module per component file.  Part II
    holds the properties. *)

From stdpp Require Import base option list strings pretty gmap.
From Stdlib Require Import ZArith.

Local Open Scope string_scope.
Local Open Scope list_scope.
Local Open Scope Z_scope.

(* ===================================================================== *)
(** * Part I: the embedding                                               *)
(* ===================================================================== *)

(** ** JavaScript values, as far as the components use them *)

Module Js.

(** Numbers are the integral ones: step values, indices and counts. *)
Inductive value :=
| VUndefined
| VNull
| VBool (b : bool)
| VNum (n : Z)
| VStr (s : string).

#[export] Instance value_eq_dec : EqDecision value.
Proof. solve_decision. Defined.

Definition truthy (v : value) : bool :=
  match v with
  | VUndefined | VNull => false
  | VBool b => b
  | VNum n => negb (n =? 0)
  | VStr s => negb (String.eqb s EmptyString)
  end.

(** [a && b], [a || b] and [!a]. *)
Definition and_ (a b : value) : value := if truthy a then b else a.
Definition or_ (a b : value) : value := if truthy a then a else b.
Definition not_ (a : value) : value := VBool (negb (truthy a)).

(** An optional boolean prop: absent is [undefined]. *)
Definition of_option_bool (o : option bool) : value :=
  match o with Some b => VBool b | None => VUndefined end.

(** [hay.includes(needle)] *)
Fixpoint includes (needle hay : string) : bool :=
  String.prefix needle hay ||
  match hay with
  | EmptyString => false
  | String _ hay' => includes needle hay'
  end.

(** What a thrown value can be: an [Error] carrying a message, or anything
    else ([error instanceof Error] is false for the latter). *)
Inductive thrown :=
| ErrorObject (message : string)
| NotAnError (v : value).

(** The completion of a call that may throw. *)
Inductive completion (A : Type) :=
| Normal (a : A)
| Throw (t : thrown).
Arguments Normal {A} a.
Arguments Throw {A} t.

Definition bind {A B} (c : completion A) (k : A → completion B) : completion B :=
  match c with
  | Normal a => k a
  | Throw t => Throw t
  end.

Definition throws {A} (c : completion A) : bool :=
  match c with Normal _ => false | Throw _ => true end.

(** The class names a list of class values stands for: every truthy string
    contributes its space-separated names, everything else is skipped.
    This is the list that reaches [cn]. *)
Definition class_names (args : list value) : list string :=
  flat_map (λ v, match v with VStr s => String.words s | _ => [] end) args.

(** [clsx]: the names above joined by single spaces. *)
Definition clsx (args : list value) : string :=
  String.concat " " (class_names args).

End Js.

(** ** Imperative code: state threaded through calls that may throw *)

Module Imp.
Import Js.

Definition M (S A : Type) : Type := S → completion A * S.

Definition ret {S A} (a : A) : M S A := λ s, (Normal a, s).

Definition bind {S A B} (m : M S A) (k : A → M S B) : M S B :=
  λ s, match m s with
       | (Normal a, s') => k a s'
       | (Throw t, s') => (Throw t, s')
       end.

Definition throw {S A} (t : thrown) : M S A := λ s, (Throw t, s).
Definition get {S} : M S S := λ s, (Normal s, s).
Definition modify {S} (f : S → S) : M S unit := λ s, (Normal tt, f s).

(** [if (b) m] *)
Definition when {S} (b : bool) (m : M S unit) : M S unit := if b then m else ret tt.

(** [try { body } catch (e) { handler(e) } finally { finalizer }] *)
Definition try_catch_finally {S} (body : M S unit) (handler : thrown → M S unit)
    (finalizer : M S unit) : M S unit :=
  λ s, let '(r, s1) := body s in
       let '(r', s2) := match r with
                        | Normal _ => (Normal tt, s1)
                        | Throw t => handler t s1
                        end in
       match finalizer s2 with
       | (Normal _, s3) => (r', s3)
       | (Throw t, s3) => (Throw t, s3)
       end.

End Imp.

Notation "x ←! m ; k" := (Imp.bind m (λ x, k))
  (at level 20, m at level 100, k at level 200, right associativity,
   format "x  ←!  m ;  '/' k").
Notation "m ;! k" := (Imp.bind m (λ _, k))
  (at level 100, k at level 200, right associativity).

(** ** JSX elements and their props *)

Module Jsx.
Import Js.

(** An attribute is a plain value, a function the caller handed in, or a
    value of type [O] that the component itself builds (a closure, an
    object literal). *)
Inductive attr (O : Type) :=
| AVal (v : value)
| ACallback (name : string)
| AOwn (o : O).
Arguments AVal {O} v.
Arguments ACallback {O} name.
Arguments AOwn {O} o.

(** A caller outside the module cannot build the component's own values. *)
Definition lift {O} (a : attr Empty_set) : attr O :=
  match a with
  | AVal v => AVal v
  | ACallback n => ACallback n
  | AOwn o => match o with end
  end.

(** [<T a=.. b=.. {...rest} />]: the written attributes, then the spread
    ones, which win on a shared key. *)
Definition spread {O} (written rest : gmap string (attr O)) : gmap string (attr O) :=
  rest ∪ written.

(** The rest of a destructuring pattern: the props without the keys the
    pattern names. *)
Definition omit {O} (keys : list string) (props : gmap string (attr O)) : gmap string (attr O) :=
  filter (λ kv, kv.1 ∉ keys) props.

(** How React writes a [data-*] attribute into the document: booleans are
    spelled out, [null], [undefined] and functions leave the attribute off. *)
Definition data_attribute {O} (a : option (attr O)) : option string :=
  match a with
  | Some (AVal (VBool true)) => Some "true"
  | Some (AVal (VBool false)) => Some "false"
  | Some (AVal (VStr s)) => Some s
  | Some (AVal (VNum n)) => Some (pretty n)
  | _ => None
  end.

Record element (O C : Type) := Element {
  etype : string;
  eprops : gmap string (attr O);
  echildren : C
}.
Arguments Element {O C} etype eprops echildren.
Arguments etype {O C} e.
Arguments eprops {O C} e.
Arguments echildren {O C} e.

End Jsx.

(** ** The stepper (first component file of src/unnamed/part_000) *)

Module Stepper.
Import Js Jsx.

(** The only function ever put in the context: the enclosing Stepper's
    [handleStepChange]. *)
Inductive step_setter := HandleStepChange.

Record StepperContextValue := {
  activeStep : Z;
  setActiveStep : option step_setter
}.

(** [React.createContext({ activeStep: 0 })] *)
Definition StepperContext : StepperContextValue :=
  {| activeStep := 0; setActiveStep := None |}.

(** A mounted Stepper: its [useState] cell and its [onChange] prop. *)
Record instance := {
  state_activeStep : Z;
  onChange : option string
}.

(** Calls that leave the component. *)
Inductive call :=
| OnChange (callback : string) (step : Z)
| CallerHandler (name : string).

#[export] Instance call_eq_dec : EqDecision call.
Proof. solve_decision. Defined.

(** [value = 0] in the parameter list, then [useState(value)]. *)
Definition mount (value : option Z) (onChange : option string) : instance :=
  {| state_activeStep := default 0 value; onChange := onChange |}.

(** The effect on [value]: after the default, [value !== undefined] holds. *)
Definition valueEffect (value : option Z) (s : instance) : instance :=
  {| state_activeStep := default 0 value; onChange := onChange s |}.

Definition handleStepChange (s : instance) (step : Z) : instance * list call :=
  ({| state_activeStep := step; onChange := onChange s |},
   match onChange s with
   | Some cb => [OnChange cb step]
   | None => []
   end).

(** The value of [StepperContext.Provider]. *)
Definition provided (s : instance) : StepperContextValue :=
  {| activeStep := state_activeStep s; setActiveStep := Some HandleStepChange |}.

(** The closure [() => !isDisabled && setActiveStep?.(value)]. *)
Inductive item_click :=
| ItemClick (isDisabled : value) (setActiveStep : option step_setter) (value : Z).

Section Render.
Variable cn : list value → string.
Context {C : Type}.

Definition Stepper (className : value) (children : C) (props : gmap string (attr Empty_set))
  : element Empty_set C :=
  Element "div"
    (spread {[ "className" := AVal (VStr (cn [VStr "flex w-full items-center"; className])) ]}
            (omit ["className"; "value"; "onChange"; "children"] props))
    children.

Definition isActive (ctx : StepperContextValue) (value : Z) : bool :=
  bool_decide (activeStep ctx = value).
Definition isCompleted (ctx : StepperContextValue) (value : Z) : bool :=
  bool_decide (activeStep ctx > value).
Definition isDisabled (ctx : StepperContextValue) (value : Z) (disabled : option bool) : Js.value :=
  or_ (of_option_bool disabled) (VBool (bool_decide (activeStep ctx < value))).

Definition StepperItem_classes (ctx : StepperContextValue) (className : Js.value)
    (value : Z) (disabled : option bool) : list Js.value :=
  [ VStr "flex w-full items-center";
    and_ (not_ (isDisabled ctx value disabled)) (VStr "cursor-pointer");
    className ].

(** The attributes written out in the JSX of StepperItem. *)
Definition StepperItem_attributes (ctx : StepperContextValue) (className : Js.value)
    (value : Z) (disabled : option bool) : gmap string (attr item_click) :=
  <[ "className" := AVal (VStr (cn (StepperItem_classes ctx className value disabled))) ]>
  (<[ "data-active" := AVal (VBool (isActive ctx value)) ]>
  (<[ "data-completed" := AVal (VBool (isCompleted ctx value)) ]>
  (<[ "data-disabled" := AVal (isDisabled ctx value disabled) ]>
  (<[ "onClick" := AOwn (ItemClick (isDisabled ctx value disabled) (setActiveStep ctx) value) ]>
   ∅)))).

(** [props] is what the caller passed besides the destructured
    [className], [value], [disabled] and [children]; it is spread last. *)
Definition StepperItem (ctx : StepperContextValue) (className : Js.value) (value : Z)
    (disabled : option bool) (children : C) (props : gmap string (attr Empty_set))
  : element item_click C :=
  Element "div"
    (spread (StepperItem_attributes ctx className value disabled)
            (lift <$> omit ["className"; "value"; "disabled"; "children"] props))
    children.

End Render.

(** Running the [onClick] attribute of a rendered item inside the Stepper
    instance [s].  The component's own closure may reach [handleStepChange];
    a handler supplied by the caller is the caller's code. *)
Definition click {C} (item : element item_click C) (s : instance) : instance * list call :=
  match eprops item !! "onClick" with
  | Some (AOwn (ItemClick isDisabled setter value)) =>
      if truthy (not_ isDisabled)
      then match setter with
           | Some HandleStepChange => handleStepChange s value
           | None => (s, [])
           end
      else (s, [])
  | Some (ACallback name) => (s, [CallerHandler name])
  | _ => (s, [])
  end.

(** The item carries [name="true"] in the document. *)
Definition marked {C} (name : string) (item : element item_click C) : Prop :=
  data_attribute (eprops item !! name) = Some "true".

Definition invokes_onChange (calls : list call) : bool :=
  existsb (λ c, match c with OnChange _ _ => true | CallerHandler _ => false end) calls.

End Stepper.

(** ** The button group (second component file of src/unnamed/part_000) *)

Module ButtonGroup.
Import Js Jsx.

Inductive variant := Default | Ghost | Outline | Solid | Gradient.
Inductive size := Sm | Md | Lg.

(** The [cva] table: every [variant] and [size] maps to the empty class;
    an absent prop takes the default, [null] switches the axis off. *)
Definition fullWidth_class (fullWidth : value) : value :=
  match fullWidth with
  | VNull => VUndefined
  | VBool true => VStr "w-full"
  | _ => VStr EmptyString
  end.

Definition pill_class (pill : value) : value :=
  match pill with
  | VNull => VUndefined
  | VBool true =>
      VStr "[&>button]:first:rounded-l-full [&>button]:last:rounded-r-full [&>button]:rounded-none"
  | _ =>
      VStr "[&>button]:first:rounded-l-md [&>button]:last:rounded-r-md [&>button]:rounded-none"
  end.

Definition buttonGroupVariants (v : option variant) (sz : option size)
    (fullWidth pill : value) : string :=
  clsx [VStr "inline-flex items-center"; VStr EmptyString; VStr EmptyString;
        fullWidth_class fullWidth; pill_class pill].

Section Render.
Variable cn : list value → string.
Context {C : Type}.

(** One child as [React.Children] sees it, after nested arrays are
    flattened: an empty node ([null], [undefined], a boolean), a text or
    number, or an element. *)
Inductive node :=
| NEmpty
| NText (s : string)
| NNumber (n : Z)
| NElement (e : element Empty_set C).

Definition isValidElement (child : node) : bool :=
  match child with NElement _ => true | _ => false end.

Definition isNull (child : node) : bool :=
  match child with NEmpty => true | _ => false end.

(** [React.Children.count]: empty nodes, texts and elements all count. *)
Definition Children_count (children : list node) : Z := Z.of_nat (length children).

(** [React.Children.map]: the callback sees every node with its running
    index; a [null] result is left out of the array. *)
Definition Children_map (f : node → Z → node) (children : list node) : list node :=
  filter (λ r, isNull r = false) (imap (λ i child, f child (Z.of_nat i)) children).

(** [React.cloneElement(child, props)] *)
Definition cloneElement (child : element Empty_set C) (props : gmap string (attr Empty_set))
  : element Empty_set C :=
  Element (etype child) (props ∪ eprops child) (echildren child).

(** [child.props.className] *)
Definition className_of (child : element Empty_set C) : value :=
  match eprops child !! "className" with
  | Some (AVal v) => v
  | _ => VUndefined
  end.

(** The classes the group decides by position: the arguments of [cn]
    after [child.props.className]. *)
Definition positional_classes (pill : value) (count index : Z) : list value :=
  [ and_ (VBool (bool_decide (index = 0))) (VStr "rounded-l-md");
    and_ (VBool (bool_decide (index = count - 1))) (VStr "rounded-r-md");
    and_ (and_ (VBool (bool_decide (index ≠ 0))) (VBool (bool_decide (index ≠ count - 1))))
         (VStr "rounded-none");
    and_ (and_ pill (VBool (bool_decide (index = 0)))) (VStr "rounded-l-full");
    and_ (and_ pill (VBool (bool_decide (index = count - 1)))) (VStr "rounded-r-full");
    and_ (VBool (bool_decide (index ≠ 0))) (VStr "border-l-0") ].

(** The callback handed to [React.Children.map]. *)
Definition renderChild (pill : value) (children : list node) (child : node) (index : Z) : node :=
  match child with
  | NElement e =>
      NElement (cloneElement e
        {[ "className" :=
             AVal (VStr (cn (className_of e
                             :: positional_classes pill (Children_count children) index))) ]})
  | _ => child
  end.

Definition ButtonGroup (className : value) (v : option variant) (sz : option size)
    (fullWidth pill : value) (children : list node) (props : gmap string (attr Empty_set))
  : element Empty_set (list node) :=
  Element "div"
    (spread
       {[ "className" :=
            AVal (VStr (cn [ VStr (buttonGroupVariants v sz fullWidth pill);
                             VStr "[&>button:not(:first-child)]:border-l-0";
                             VStr "[&>button:not(:first-child)]:rounded-l-none";
                             VStr "[&>button:not(:last-child)]:rounded-r-none";
                             className ])) ]}
       (omit ["className"; "variant"; "size"; "fullWidth"; "pill"; "children"] props))
    (Children_map (renderChild pill children) children).

End Render.

Arguments NEmpty {C}.
Arguments NText {C} s.
Arguments NNumber {C} n.

End ButtonGroup.

(** ** ui/list.tsx *)

Module ListView.
Import Js Jsx.

Section Render.
Variable cn : list value → string.
Context {C : Type}.

Definition List (className : value) (children : C) (props : gmap string (attr Empty_set))
  : element Empty_set C :=
  Element "ul"
    (spread
       (<[ "data-slot" := AVal (VStr "list") ]>
       (<[ "className" := AVal (VStr (cn [VStr "flex flex-col gap-1"; className])) ]> ∅))
       (omit ["className"] props))
    children.

(** The arguments of [cn] in ListItem. *)
Definition ListItem_classes (className : value) (selected disabled : bool) : list value :=
  [ VStr "flex items-center gap-3 rounded-md px-3 py-2 text-sm transition-colors";
    VStr "hover:bg-accent hover:text-accent-foreground";
    VStr "focus-visible:ring-ring focus-visible:ring-2 focus-visible:ring-offset-2 focus-visible:outline-none";
    and_ (VBool selected) (VStr "bg-accent text-accent-foreground");
    and_ (VBool disabled) (VStr "pointer-events-none opacity-50");
    className ].

(** The attributes written out in the JSX of ListItem. *)
Definition ListItem_attributes (className : value) (selected disabled : bool)
  : gmap string (attr Empty_set) :=
  <[ "data-slot" := AVal (VStr "list-item") ]>
  (<[ "data-selected" := AVal (VBool selected) ]>
  (<[ "data-disabled" := AVal (VBool disabled) ]>
  (<[ "className" := AVal (VStr (cn (ListItem_classes className selected disabled))) ]> ∅))).

(** [asChild], [selected] and [disabled] default to [false]; [children]
    travel with the other props, which are spread last. *)
Definition ListItem (className : value) (asChild selected disabled : option bool)
    (children : C) (props : gmap string (attr Empty_set)) : element Empty_set C :=
  let asChild := default false asChild in
  let selected := default false selected in
  let disabled := default false disabled in
  let Comp := if asChild then "Slot" else "li" in
  Element Comp
    (spread (ListItem_attributes className selected disabled)
            (omit ["className"; "asChild"; "selected"; "disabled"] props))
    children.

End Render.

End ListView.

(** ** ui/sonner.tsx *)

Module Sonner.
Import Js Jsx.

(** An icon element: the icon component and its class. *)
Record icon := Icon { icon_component : string; icon_className : string }.

(** The object literals Toaster builds; a caller can pass objects of the
    same shapes. *)
Inductive object :=
| Icons (table : gmap string icon)
| Style (variables : gmap string string).

(** The five statuses the toast engine has icons for. *)
Definition statuses : list string := ["success"; "info"; "warning"; "error"; "loading"].

Definition Toaster_icons : gmap string icon :=
  <[ "success" := Icon "CircleCheckIcon" "mt-0.5 size-4 shrink-0 text-green-500" ]>
  (<[ "info" := Icon "InfoIcon" "mt-0.5 size-4 shrink-0 text-blue-500" ]>
  (<[ "warning" := Icon "TriangleAlertIcon" "mt-0.5 size-4 shrink-0 text-yellow-500" ]>
  (<[ "error" := Icon "OctagonXIcon" "mt-0.5 size-4 shrink-0 text-red-500" ]>
  (<[ "loading" := Icon "Loader2Icon" "mt-0.5 size-4 shrink-0 animate-spin" ]> ∅)))).

Definition Toaster_style : gmap string string :=
  <[ "--normal-bg" := "var(--popover)" ]>
  (<[ "--normal-text" := "var(--popover-foreground)" ]>
  (<[ "--normal-border" := "var(--border)" ]>
  (<[ "--border-radius" := "var(--radius)" ]> ∅))).

Section Render.
Variable cn : list value → string.

(** [const { theme = "system" } = useTheme()]: [useTheme_theme] is the
    [theme] field the hook returned, if any. *)
Definition resolved_theme (useTheme_theme : option string) : string :=
  default "system" useTheme_theme.

(** The attributes written out in the JSX of Toaster. *)
Definition Toaster_attributes (useTheme_theme : option string) : gmap string (attr object) :=
  <[ "theme" := AVal (VStr (resolved_theme useTheme_theme)) ]>
  (<[ "className" :=
        AVal (VStr (cn [VStr "toaster group [&>li]:flex [&>li]:items-start [&>li]:gap-3"])) ]>
  (<[ "icons" := AOwn (Icons Toaster_icons) ]>
  (<[ "style" := AOwn (Style Toaster_style) ]> ∅))).

(** [({ ...props }) => <Sonner ... {...props} />]: every prop of the
    caller is spread last. *)
Definition Toaster (useTheme_theme : option string) (props : gmap string (attr object))
  : element object unit :=
  Element "Sonner" (spread (Toaster_attributes useTheme_theme) props) tt.

End Render.

(** What the toast engine receives. *)
Definition passed_theme (e : element object unit) : option (attr object) := eprops e !! "theme".

Definition passed_icon (e : element object unit) (status : string) : option icon :=
  match eprops e !! "icons" with
  | Some (AOwn (Icons table)) => table !! status
  | _ => None
  end.

End Sonner.

(** ** The mapping engine, as the map components call it

    The engine is an external library.  This is the part of a loaded map's
    style that the components touch: its sources, its layers and its
    listeners, with the engine's own rules for adding and removing them. *)

Module MapLibre.
Import Js Imp.

Record source := Source { source_type : string; source_cluster : bool }.
Record layer := Layer { layer_type : string; layer_source : string }.

(** The calls a component makes, in order, with what the lookups found. *)
Inductive call :=
| GetSource (id : string) (found : bool)
| GetLayer (id : string) (found : bool)
| AddSource (id : string)
| AddLayer (id : string)
| RemoveLayer (id : string)
| RemoveSource (id : string)
| On (event layerId : string).

Record engine := Engine {
  sources : gmap string source;
  layers : gmap string layer;
  listeners : list (string * string);
  errors : list string;   (* error events fired, not thrown *)
  calls : list call
}.

Definition record (c : call) : M engine unit :=
  modify (λ m, Engine (sources m) (layers m) (listeners m) (errors m) (calls m ++ [c])).

Definition fire (message : string) : M engine unit :=
  modify (λ m, Engine (sources m) (layers m) (listeners m) (errors m ++ [message]) (calls m)).

Definition set_sources (f : gmap string source → gmap string source) : M engine unit :=
  modify (λ m, Engine (f (sources m)) (layers m) (listeners m) (errors m) (calls m)).

Definition set_layers (f : gmap string layer → gmap string layer) : M engine unit :=
  modify (λ m, Engine (sources m) (f (layers m)) (listeners m) (errors m) (calls m)).

(** [map.getSource(id)] and [map.getLayer(id)], read for their truthiness. *)
Definition getSource (id : string) : M engine bool :=
  m ←! get;
  let found := bool_decide (is_Some (sources m !! id)) in
  record (GetSource id found);! ret found.

Definition getLayer (id : string) : M engine bool :=
  m ←! get;
  let found := bool_decide (is_Some (layers m !! id)) in
  record (GetLayer id found);! ret found.

(** Adding a source under a taken id throws. *)
Definition addSource (id : string) (spec : source) : M engine unit :=
  record (AddSource id);!
  m ←! get;
  match sources m !! id with
  | Some _ => throw (ErrorObject ("Source " +:+ id +:+ " already exists."))
  | None => set_sources (insert id spec)
  end.

(** Adding a layer under a taken id, or over a missing source, fires an
    error event and adds nothing. *)
Definition addLayer (id : string) (spec : layer) : M engine unit :=
  record (AddLayer id);!
  m ←! get;
  match layers m !! id, sources m !! layer_source spec with
  | Some _, _ => fire ("Layer " +:+ id +:+ " already exists on this map.")
  | None, None => fire ("Source " +:+ layer_source spec +:+ " not found.")
  | None, Some _ => set_layers (insert id spec)
  end.

(** Removing a missing layer fires an error event. *)
Definition removeLayer (id : string) : M engine unit :=
  record (RemoveLayer id);!
  m ←! get;
  match layers m !! id with
  | None => fire ("Cannot remove non-existing layer " +:+ id +:+ ".")
  | Some _ => set_layers (delete id)
  end.

Definition in_use (id : string) (m : engine) : bool :=
  bool_decide (map_Exists (λ _ l, layer_source l = id) (layers m)).

(** Removing a missing source throws; removing one that a layer still
    uses fires an error event and leaves it. *)
Definition removeSource (id : string) : M engine unit :=
  record (RemoveSource id);!
  m ←! get;
  match sources m !! id with
  | None => throw (ErrorObject "There is no source with this ID")
  | Some _ =>
      if in_use id m
      then fire ("Source " +:+ id +:+ " cannot be removed while a layer is using it.")
      else set_sources (delete id)
  end.

(** [map.on(event, layerId, listener)] *)
Definition on (event layerId : string) : M engine unit :=
  record (On event layerId);!
  modify (λ m, Engine (sources m) (layers m) (listeners m ++ [(event, layerId)])
                      (errors m) (calls m)).

(** Every layer draws from a source the map has. *)
Definition consistent (m : engine) : Prop :=
  map_Forall (λ _ l, is_Some (sources m !! layer_source l)) (layers m).

Definition empty : engine := Engine ∅ ∅ [] [] [].

End MapLibre.

(** ** The map components (third component file of src/unnamed/part_000) *)

Module MapWidget.
Import Js Jsx Imp MapLibre.

(** *** Contexts *)

(** A handle on an engine instance: the engines a Map constructs are
    numbered in the order of construction. *)
Definition handle := nat.

Record MapContextValue := { map : option handle; isLoaded : bool }.

Record MarkerContextValue := {
  marker : option string;
  markerElement : option string
}.

(** A context value as JavaScript sees it: [None] is [null]. *)
Definition MapContext : option MapContextValue :=
  Some {| map := None; isLoaded := false |}.

Definition MarkerContext : option MarkerContextValue := None.

(** Where a component is rendered: for each context, the value of the
    nearest enclosing provider, if there is one. *)
Record ambient := {
  MapProvider : option (option MapContextValue);
  MarkerProvider : option (option MarkerContextValue)
}.

Definition outside : ambient := {| MapProvider := None; MarkerProvider := None |}.

(** [React.useContext]: the nearest provider's value, else the default the
    context was created with. *)
Definition useContext {A} (defaultValue : A) (provider : option A) : A :=
  default defaultValue provider.

Definition useMap (amb : ambient) : completion MapContextValue :=
  match useContext MapContext (MapProvider amb) with
  | None => Throw (ErrorObject "useMap must be used within a Map component")
  | Some context => Normal context
  end.

(** *** Map *)

Inductive console_entry :=
| ConsoleError (label : string) (error : thrown).

(** The refs and state of one Map, and the engines it has constructed and
    not yet called [remove()] on. *)
Record MapState := {
  mapContainer : option string;
  mapInstance : option handle;
  state_isLoaded : bool;
  engines : list handle;
  constructed : nat;
  console : list console_entry
}.

Definition initial : MapState :=
  {| mapContainer := None; mapInstance := None; state_isLoaded := false;
     engines := []; constructed := 0; console := [] |}.

(** The effect that initializes the map.  The boolean tells whether it
    returned a cleanup function. *)
Definition initEffect (s : MapState) : MapState * bool :=
  if negb (bool_decide (is_Some (mapContainer s))) || bool_decide (is_Some (mapInstance s))
  then (s, false)
  else
    let instance := constructed s in
    ({| mapContainer := mapContainer s;
        mapInstance := Some instance;
        state_isLoaded := state_isLoaded s;
        engines := instance :: engines s;
        constructed := S (constructed s);
        console := console s |},
     true).

(** The [load] listener: [setIsLoaded(true)]. *)
Definition onLoad (s : MapState) : MapState :=
  {| mapContainer := mapContainer s; mapInstance := mapInstance s; state_isLoaded := true;
     engines := engines s; constructed := constructed s; console := console s |}.

Definition setIsLoaded (b : bool) : M MapState unit :=
  modify (λ s, {| mapContainer := mapContainer s; mapInstance := mapInstance s;
                  state_isLoaded := b; engines := engines s;
                  constructed := constructed s; console := console s |}).

Definition set_mapInstance (h : option handle) : M MapState unit :=
  modify (λ s, {| mapContainer := mapContainer s; mapInstance := h;
                  state_isLoaded := state_isLoaded s; engines := engines s;
                  constructed := constructed s; console := console s |}).

Definition console_error (label : string) (error : thrown) : M MapState unit :=
  modify (λ s, {| mapContainer := mapContainer s; mapInstance := mapInstance s;
                  state_isLoaded := state_isLoaded s; engines := engines s;
                  constructed := constructed s;
                  console := console s ++ [ConsoleError label error] |}).

Section Lifecycle.
(** What [remove()] does on each engine is the engine's business. *)
Variable remove : handle → completion unit.

(** [mapInstance.current.remove()] *)
Definition instance_remove (h : handle) : M MapState unit :=
  λ s, (remove h,
        {| mapContainer := mapContainer s; mapInstance := mapInstance s;
           state_isLoaded := state_isLoaded s;
           engines := filter (λ h', h' ≠ h) (engines s);
           constructed := constructed s; console := console s |}).

(** The cleanup function the initializing effect returns. *)
Definition cleanup : M MapState unit :=
  s ←! get;
  match mapInstance s with
  | Some instance =>
      try_catch_finally
        (instance_remove instance)
        (λ error,
           match error with
           | ErrorObject message =>
               when (negb (includes "aborted" message))
                    (console_error "Error removing map:" error)
           | NotAnError _ => ret tt
           end)
        (set_mapInstance None;! setIsLoaded false)
  | None => ret tt
  end.

(** A mounted Map as React holds it: the component's refs and state, and
    whether React holds a cleanup function for the initializing effect. *)
Record mounted := { component : MapState; held_cleanup : bool }.

Definition set_container (c : option string) (s : MapState) : MapState :=
  {| mapContainer := c; mapInstance := mapInstance s; state_isLoaded := state_isLoaded s;
     engines := engines s; constructed := constructed s; console := console s |}.

(** What can happen to a mounted Map: React attaches or detaches the
    container ref; React runs the effect (on mount, or on a strict-mode
    remount) when it holds no cleanup for it; React runs the held cleanup;
    a constructed engine fires [load]. *)
Inductive step : mounted → mounted → Prop :=
| step_ref c s held :
    step {| component := s; held_cleanup := held |}
         {| component := set_container c s; held_cleanup := held |}
| step_effect s :
    step {| component := s; held_cleanup := false |}
         {| component := (initEffect s).1; held_cleanup := (initEffect s).2 |}
| step_cleanup s :
    step {| component := s; held_cleanup := true |}
         {| component := (cleanup s).2; held_cleanup := false |}
| step_load s held h :
    h ∈ engines s →
    step {| component := s; held_cleanup := held |}
         {| component := onLoad s; held_cleanup := held |}.

Definition reachable : mounted → Prop :=
  rtc step {| component := initial; held_cleanup := false |}.

End Lifecycle.

(** The engines not yet removed are exactly the stored one, and React
    holds a cleanup only while one is stored. *)
Definition lifecycle_invariant (m : mounted) : Prop :=
  engines (component m) = option_list (mapInstance (component m)) ∧
  (held_cleanup m = true → is_Some (mapInstance (component m))).


(** The value of [MapContext.Provider] in Map's render. *)
Definition Map_provided (s : MapState) : MapContextValue :=
  {| map := mapInstance s; isLoaded := state_isLoaded s |}.

Definition under_Map (s : MapState) (amb : ambient) : ambient :=
  {| MapProvider := Some (Some (Map_provided s)); MarkerProvider := MarkerProvider amb |}.

(** *** Markers *)

(** The value of [MarkerContext.Provider] in MapMarker's render. *)
Definition under_MapMarker (marker markerElement : option string) (amb : ambient) : ambient :=
  {| MapProvider := MapProvider amb;
     MarkerProvider := Some (Some {| marker := marker; markerElement := markerElement |}) |}.

(** [createPortal(<div className=...>children</div>, container)] *)
Record portal (C : Type) := Portal {
  portal_content : element Empty_set C;
  portal_container : string
}.
Arguments Portal {C} portal_content portal_container.

Section Render.
Variable cn : list value → string.
Context {C : Type}.

(** The render of MarkerPopup; [popupContainer] is
    [popupContainerRef.current]. *)
Definition MarkerPopup (amb : ambient) (popupContainer : option string)
    (className : value) (children : C) : completion (option (portal C)) :=
  let context := useContext MarkerContext (MarkerProvider amb) in
  Js.bind (useMap amb) (λ _,
  match context with
  | None => Throw (ErrorObject "MarkerPopup must be used within a MapMarker")
  | Some _ =>
      match popupContainer with
      | None => Normal None
      | Some container =>
          Normal (Some (Portal
            (Element "div"
               {[ "className" :=
                    AVal (VStr (cn [VStr "animate-in fade-in-0 zoom-in-95 bg-popover text-popover-foreground border-border rounded-lg border p-3 text-sm shadow-lg";
                                    className])) ]}
               children)
            container))
      end
  end).

(** The render of MarkerTooltip; [tooltipContainer] is
    [tooltipContainerRef.current]. *)
Definition MarkerTooltip (amb : ambient) (tooltipContainer : option string)
    (className : value) (children : C) : completion (option (portal C)) :=
  let context := useContext MarkerContext (MarkerProvider amb) in
  Js.bind (useMap amb) (λ _,
  match context with
  | None => Throw (ErrorObject "MarkerTooltip must be used within a MapMarker")
  | Some _ =>
      match tooltipContainer with
      | None => Normal None
      | Some container =>
          Normal (Some (Portal
            (Element "div"
               {[ "className" :=
                    AVal (VStr (cn [VStr "animate-in fade-in-0 zoom-in-95 bg-foreground text-background rounded-md px-2 py-1 text-xs shadow-md";
                                    className])) ]}
               children)
            container))
      end
  end).

End Render.

(** *** MapRoute *)

Definition route_sourceId (id : string) : string := "route-" +:+ id.
Definition route_layerId (id : string) : string := "route-layer-" +:+ id.

(** [if (!map || !isLoaded) return] *)
Definition not_ready (context : MapContextValue) : bool :=
  negb (bool_decide (is_Some (map context))) || negb (isLoaded context).

(** [if (!map.getSource(id)) map.addSource(id, spec)] *)
Definition add_source_if_absent (id : string) (spec : source) : M engine unit :=
  hasSource ←! getSource id;
  when (negb hasSource) (addSource id spec).

(** [if (!map.getLayer(id)) map.addLayer({ id, ... })] *)
Definition add_layer_if_absent (id : string) (spec : layer) : M engine unit :=
  hasLayer ←! getLayer id;
  when (negb hasLayer) (addLayer id spec).

(** [if (map.getLayer(id)) map.removeLayer(id)] *)
Definition remove_layer_if_present (id : string) : M engine unit :=
  hasLayer ←! getLayer id;
  when hasLayer (removeLayer id).

(** [if (map.getSource(id)) map.removeSource(id)] *)
Definition remove_source_if_present (id : string) : M engine unit :=
  hasSource ←! getSource id;
  when hasSource (removeSource id).

(** The listeners MapRoute registers when it is interactive. *)
Definition MapRoute_listeners (layerId : string)
    (onClick onMouseEnter onMouseLeave : option string) : M engine unit :=
  when (bool_decide (is_Some onClick)) (on "click" layerId);!
  when (bool_decide (is_Some onMouseEnter)) (on "mouseenter" layerId);!
  when (bool_decide (is_Some onMouseLeave)) (on "mouseleave" layerId).

(** The effect of MapRoute on the engine of its context.  The boolean
    tells whether it returned a cleanup function; [interactive] defaults to
    true, the handlers are optional. *)
Definition MapRoute_effect (context : MapContextValue) (id : string)
    (interactive : option bool) (onClick onMouseEnter onMouseLeave : option string)
  : M engine bool :=
  if not_ready context then ret false
  else
    let sourceId := route_sourceId id in
    let layerId := route_layerId id in
    add_source_if_absent sourceId (Source "geojson" false);!
    add_layer_if_absent layerId (Layer "line" sourceId);!
    when (default true interactive)
         (MapRoute_listeners layerId onClick onMouseEnter onMouseLeave);!
    ret true.

Definition MapRoute_cleanup (id : string) : M engine unit :=
  let sourceId := route_sourceId id in
  let layerId := route_layerId id in
  remove_layer_if_present layerId;!
  remove_source_if_present sourceId.

(** *** MapClusterLayer *)

Definition cluster_sourceId : string := "clusters".
Definition clusterLayerId : string := "clusters-layer".
Definition clusterCountLayerId : string := "cluster-count".
Definition pointLayerId : string := "unclustered-point".

(** The listeners MapClusterLayer registers: the two optional click
    handlers, then the four for the cursor. *)
Definition MapClusterLayer_listeners (onPointClick onClusterClick : option string)
  : M engine unit :=
  when (bool_decide (is_Some onClusterClick)) (on "click" clusterLayerId);!
  when (bool_decide (is_Some onPointClick)) (on "click" pointLayerId);!
  on "mouseenter" clusterLayerId;!
  on "mouseleave" clusterLayerId;!
  on "mouseenter" pointLayerId;!
  on "mouseleave" pointLayerId.

Definition MapClusterLayer_effect (context : MapContextValue)
    (onPointClick onClusterClick : option string) : M engine bool :=
  if not_ready context then ret false
  else
    addSource cluster_sourceId (Source "geojson" true);!
    addLayer clusterLayerId (Layer "circle" cluster_sourceId);!
    addLayer clusterCountLayerId (Layer "symbol" cluster_sourceId);!
    addLayer pointLayerId (Layer "circle" cluster_sourceId);!
    MapClusterLayer_listeners onPointClick onClusterClick;!
    ret true.

Definition MapClusterLayer_cleanup : M engine unit :=
  remove_layer_if_present pointLayerId;!
  remove_layer_if_present clusterCountLayerId;!
  remove_layer_if_present clusterLayerId;!
  remove_source_if_present cluster_sourceId.

(** The calls made between two engine states. *)
Definition calls_since (before after : engine) : list call :=
  drop (length (calls before)) (calls after).

(** The calls of a teardown that looks before it removes: for each layer
    in turn and then for the source, a lookup, followed by the removal only
    when the lookup found something.  [m] is the engine before the
    teardown. *)
Definition checked_removals (m : engine) (layerIds : list string) (sourceId : string)
  : list call :=
  flat_map (λ id, let found := bool_decide (is_Some (layers m !! id)) in
                  GetLayer id found :: (if found then [RemoveLayer id] else []))
           layerIds
  ++ (let found := bool_decide (is_Some (sources m !! sourceId)) in
      GetSource sourceId found :: (if found then [RemoveSource sourceId] else [])).

(** A command that does not throw and leaves sources, layers and error
    events as they were. *)
Definition keeps_style (c : M engine unit) : Prop :=
  ∀ m, (c m).1 = Normal tt ∧ sources (c m).2 = sources m ∧
       layers (c m).2 = layers m ∧ errors (c m).2 = errors m.

End MapWidget.

(** ** A Stepper in use: items clicked one after the other *)

Module StepperSession.
Import Js Jsx Stepper.

(** The props of one StepperItem. *)
Record item := Item {
  item_className : value;
  item_value : Z;
  item_disabled : option bool;
  item_props : gmap string (attr Empty_set)
}.

Section Session.
Variable cn : list value → string.

(** The item as the Stepper in state [s] renders it. *)
Definition render (it : item) (s : instance) : element item_click unit :=
  StepperItem cn (provided s) (item_className it) (item_value it) (item_disabled it) tt
    (item_props it).

(** The items are clicked in turn; every click lands on the item as the
    Stepper renders it after the clicks before. *)
Fixpoint clicks (its : list item) (s : instance) : instance * list call :=
  match its with
  | [] => (s, [])
  | it :: rest =>
      let '(s1, calls1) := click (render it s) s in
      let '(s2, calls2) := clicks rest s1 in
      (s2, calls1 ++ calls2)
  end.

End Session.

(** The steps the Stepper reported through [onChange]. *)
Definition reported (calls : list call) : list Z :=
  omap (λ c, match c with OnChange _ step => Some step | CallerHandler _ => None end) calls.

End StepperSession.

(** ** The outline of a list of children *)

Module ChildOutline.
Import Js Jsx ButtonGroup.

(** What a child is, apart from its props: nothing for an empty node. *)
Inductive outline :=
| OText (s : string)
| ONumber (n : Z)
| OElement (etype : string).

Definition outline_of {C} (child : @node C) : option outline :=
  match child with
  | NEmpty => None
  | NText s => Some (OText s)
  | NNumber n => Some (ONumber n)
  | NElement e => Some (OElement (etype e))
  end.

End ChildOutline.

(** ** ui/collapse.tsx *)

Module CollapseView.
Import Js Jsx.

(** [props.k]: a key the object does not have reads as [undefined]. *)
Definition read {O} (props : gmap string (attr O)) (k : string) : attr O :=
  default (AVal VUndefined) (props !! k).

Section Render.
Variable cn : list value → string.
Context {C : Type}.

(** [props] is the whole props object of the caller; [open] and
    [onOpenChange] are taken out of it, written first, and the rest is
    spread after them. *)
Definition Collapse (props : gmap string (attr Empty_set)) (children : C)
  : element Empty_set C :=
  let open := read props "open" in
  let onOpenChange := read props "onOpenChange" in
  Element "CollapsiblePrimitive.Root"
    (spread (<[ "open" := open ]> (<[ "onOpenChange" := onOpenChange ]> ∅))
            (omit ["open"; "onOpenChange"; "children"] props))
    children.

(** The arguments of [cn] in CollapseContent. *)
Definition CollapseContent_classes (className : attr Empty_set) : list value :=
  [ VStr "data-[state=closed]:animate-accordion-up data-[state=open]:animate-accordion-down overflow-hidden transition-all";
    match className with AVal v => v | _ => VUndefined end ].

(** [children] stay among the props that are spread. *)
Definition CollapseContent (props : gmap string (attr Empty_set)) : element Empty_set unit :=
  let className := read props "className" in
  Element "CollapsiblePrimitive.CollapsibleContent"
    (spread {[ "className" := AVal (VStr (cn (CollapseContent_classes className))) ]}
            (omit ["className"] props))
    tt.

End Render.

End CollapseView.

(** ** ui/spinner.tsx *)

Module SpinnerView.
Import Js Jsx.

Inductive size := Xs | Sm | Md | Lg | Xl | Xxl.

(** The [size] prop: left out, [null], or one of the sizes. *)
Inductive size_prop :=
| SizeAbsent
| SizeNull
| SizeOf (s : size).

Definition size_class (s : size) : string :=
  match s with
  | Xs => "h-4 w-4"
  | Sm => "h-6 w-6"
  | Md => "h-8 w-8"
  | Lg => "h-12 w-12"
  | Xl => "h-16 w-16"
  | Xxl => "h-20 w-20"
  end.

(** The classes of [spinnerVariants({ size })]: the base, then the class of
    the size; an absent size takes the default [md], [null] takes none. *)
Definition spinnerVariants_classes (size : size_prop) : list value :=
  [ VStr "inline-block animate-spin rounded-full border-2 border-solid border-current border-r-transparent align-[-0.125em] motion-reduce:animate-[spin_1.5s_linear_infinite]";
    match size with
    | SizeAbsent => VStr (size_class Md)
    | SizeNull => VNull
    | SizeOf s => VStr (size_class s)
    end ].

Definition spinnerVariants (size : size_prop) : string :=
  clsx (spinnerVariants_classes size).

(** The child of a Spinner: [<span className="sr-only">Loading...</span>]. *)
Definition label : element Empty_set string :=
  Element "span" {[ "className" := AVal (VStr "sr-only") ]} "Loading...".

Section Render.
Variable cn : list value → string.

Definition Spinner (className : value) (size : size_prop)
    (props : gmap string (attr Empty_set)) : element Empty_set (element Empty_set string) :=
  Element "div"
    (spread
       (<[ "role" := AVal (VStr "status") ]>
       (<[ "className" := AVal (VStr (cn [VStr (spinnerVariants size); className])) ]> ∅))
       (omit ["className"; "size"] props))
    label.

End Render.

End SpinnerView.

(** ** The map components: theme, render and remount of Map *)

Module MapTheme.
Import Js Jsx MapWidget.

(** A map style: a URL or a style specification object. *)
Inductive style_value :=
| StyleUrl (url : string)
| StyleSpecification (name : string).

(** An object is truthy; a string is unless it is empty. *)
Definition style_truthy (v : style_value) : bool :=
  match v with
  | StyleUrl url => negb (String.eqb url EmptyString)
  | StyleSpecification _ => true
  end.

Record styles_prop := { light : option style_value; dark : option style_value }.

Definition DEFAULT_LIGHT_STYLE : string := "https://tiles.openfreemap.org/styles/positron".
Definition DEFAULT_DARK_STYLE : string := "https://tiles.openfreemap.org/styles/dark".

(** [getTheme]: [has_window] is [typeof window !== "undefined"],
    [dark_class] whether the document element has the class "dark". *)
Definition getTheme (has_window dark_class : bool) : string :=
  if negb has_window then "light"
  else if dark_class then "dark" else "light".

(** [style || fallback], for an optional style *)
Definition style_or (style : option style_value) (fallback : string) : style_value :=
  match style with
  | Some v => if style_truthy v then v else StyleUrl fallback
  | None => StyleUrl fallback
  end.

(** [theme === "dark" ? styles?.dark || DEFAULT_DARK_STYLE
                      : styles?.light || DEFAULT_LIGHT_STYLE] *)
Definition styleUrl (theme : string) (styles : option styles_prop) : style_value :=
  if String.eqb theme "dark"
  then style_or (styles ≫= dark) DEFAULT_DARK_STYLE
  else style_or (styles ≫= light) DEFAULT_LIGHT_STYLE.

(** [{isLoaded && children}] in Map's render: the children, if they are
    rendered. *)
Definition Map_children {C} (s : MapState) (children : C) : option C :=
  if state_isLoaded s then Some children else None.

(** Every engine handle in use is one that was constructed. *)
Definition handles_constructed (s : MapState) : Prop :=
  Forall (λ h, (h < constructed s)%nat) (engines s) ∧
  (∀ h, mapInstance s = Some h → (h < constructed s)%nat).

(** Children are rendered only with an instance stored. *)
Definition loaded_has_instance (s : MapState) : Prop :=
  state_isLoaded s = true → is_Some (mapInstance s).

End MapTheme.

(** ** The map components: markers *)

Module Markers.
Import Js Jsx Imp MapWidget.

(** The refs of one MapMarker, the markers it has put on the map and not
    removed, how many it has made, the listeners it has registered and the
    updates it has forced.  A marker and the element made for it carry the
    number of their making. *)
Record MarkerState := {
  markerRef : option string;
  markerElementRef : option string;
  on_map : list string;
  made : nat;
  registered_listeners : list (string * string);   (* target, event *)
  forced_updates : nat
}.

Definition unmounted : MarkerState :=
  {| markerRef := None; markerElementRef := None; on_map := []; made := 0;
     registered_listeners := []; forced_updates := 0 |}.

Definition marker_name (n : nat) : string := "marker-" +:+ pretty n.
Definition element_name (n : nat) : string := "marker-element-" +:+ pretty n.

(** The optional handlers of a MapMarker. *)
Record marker_handlers := {
  onClick : option string;
  onMouseEnter : option string;
  onMouseLeave : option string;
  onDragStart : option string;
  onDrag : option string;
  onDragEnd : option string
}.

Definition listener_if (handler : option string) (target event : string)
  : list (string * string) :=
  if bool_decide (is_Some handler) then [(target, event)] else [].

(** The listeners the effect puts on the new element and the new marker. *)
Definition marker_listeners (el mk : string) (h : marker_handlers) : list (string * string) :=
  listener_if (onClick h) el "click" ++
  listener_if (onMouseEnter h) el "mouseenter" ++
  listener_if (onMouseLeave h) el "mouseleave" ++
  listener_if (onDragStart h) mk "dragstart" ++
  listener_if (onDrag h) mk "drag" ++
  listener_if (onDragEnd h) mk "dragend".

(** The effect of MapMarker that makes the marker.  The boolean tells
    whether it returned a cleanup function. *)
Definition marker_effect (context : MapContextValue) (h : marker_handlers) (s : MarkerState)
  : MarkerState * bool :=
  if not_ready context then (s, false)
  else
    let el := element_name (made s) in
    let mk := marker_name (made s) in
    ({| markerRef := Some mk;
        markerElementRef := Some el;
        on_map := mk :: on_map s;
        made := S (made s);
        registered_listeners := registered_listeners s ++ marker_listeners el mk h;
        forced_updates := S (forced_updates s) |},
     true).

(** Its cleanup: the marker, if there is one, is removed and forgotten;
    the element is forgotten. *)
Definition marker_cleanup (s : MarkerState) : MarkerState :=
  match markerRef s with
  | Some mk =>
      {| markerRef := None; markerElementRef := None;
         on_map := filter (λ m, m ≠ mk) (on_map s);
         made := made s; registered_listeners := registered_listeners s;
         forced_updates := forced_updates s |}
  | None =>
      {| markerRef := markerRef s; markerElementRef := None;
         on_map := on_map s; made := made s;
         registered_listeners := registered_listeners s;
         forced_updates := forced_updates s |}
  end.

(** MapMarker's render: nothing until the map has loaded and the element
    exists, then the provider of the marker context around the children. *)
Definition MapMarker (context : MapContextValue) (s : MarkerState)
  : option MarkerContextValue :=
  if negb (isLoaded context) || negb (bool_decide (is_Some (markerElementRef s)))
  then None
  else Some {| marker := markerRef s; markerElement := markerElementRef s |}.

(** A MapMarker as React holds it. *)
Record mounted_marker := { marker_state : MarkerState; marker_cleanup_held : bool }.

(** React runs the effect when it holds no cleanup for it (on mount, and
    after the cleanup when a dependency changed), with the context and
    handlers of that render; it runs the held cleanup before that and on
    unmount. *)
Inductive marker_step : mounted_marker → mounted_marker → Prop :=
| marker_step_effect context h s :
    marker_step
      {| marker_state := s; marker_cleanup_held := false |}
      {| marker_state := (marker_effect context h s).1;
         marker_cleanup_held := (marker_effect context h s).2 |}
| marker_step_cleanup s :
    marker_step
      {| marker_state := s; marker_cleanup_held := true |}
      {| marker_state := marker_cleanup s; marker_cleanup_held := false |}.

Definition marker_reachable : mounted_marker → Prop :=
  rtc marker_step {| marker_state := unmounted; marker_cleanup_held := false |}.

(** The marker and its element exist together, the marker on the map is
    the stored one, and React holds a cleanup exactly while one is
    stored. *)
Definition marker_invariant (m : mounted_marker) : Prop :=
  let s := marker_state m in
  on_map s = option_list (markerRef s) ∧
  (is_Some (markerRef s) ↔ is_Some (markerElementRef s)) ∧
  (marker_cleanup_held m = true ↔ is_Some (markerRef s)).

(** What the children of a marker render into the marker's element. *)
Inductive content (C : Type) :=
| Given (children : C)
| DefaultDot.
Arguments Given {C} children.
Arguments DefaultDot {C}.

Section Render.
Variable cn : list value → string.
Context {C : Type}.

(** [context?.markerElement], for the marker context of [amb] *)
Definition context_markerElement (amb : ambient) : option string :=
  useContext MarkerContext (MarkerProvider amb) ≫= markerElement.

(** [children] is [None] when the caller gives none: the dot is drawn. *)
Definition MarkerContent (amb : ambient) (className : value) (children : option C)
  : option (portal (content C)) :=
  match context_markerElement amb with
  | None => None
  | Some el =>
      Some (Portal
        (Element "div"
           (<[ "data-slot" := AVal (VStr "marker-content") ]>
           (<[ "className" := AVal (VStr (cn [className])) ]> ∅))
           (match children with Some c => Given c | None => DefaultDot end))
        el)
  end.

Inductive label_position := Top | Bottom | Left | Right.

Definition positionClasses (position : label_position) : string :=
  match position with
  | Top => "-top-8 left-1/2 -translate-x-1/2"
  | Bottom => "top-full left-1/2 -translate-x-1/2 mt-2"
  | Left => "right-full top-1/2 -translate-y-1/2 mr-2"
  | Right => "left-full top-1/2 -translate-y-1/2 ml-2"
  end.

Definition MarkerLabel_classes (className : value) (position : option label_position)
  : list value :=
  [ VStr "bg-background text-foreground border-border pointer-events-none absolute rounded-md border px-2 py-1 text-xs font-medium whitespace-nowrap shadow-sm";
    VStr (positionClasses (default Top position));
    className ].

Definition MarkerLabel (amb : ambient) (className : value)
    (position : option label_position) (children : C) : option (portal C) :=
  match context_markerElement amb with
  | None => None
  | Some el =>
      Some (Portal
        (Element "div"
           (<[ "data-slot" := AVal (VStr "marker-label") ]>
           (<[ "className" := AVal (VStr (cn (MarkerLabel_classes className position))) ]> ∅))
           children)
        el)
  end.

End Render.

(** *** The popup of a marker and the click that opens it *)

Inductive popup_call :=
| StopPropagation
| PopupSetLngLat
| PopupAddTo
| PopupRemove
| SetIsOpen (b : bool).

#[export] Instance popup_call_eq_dec : EqDecision popup_call.
Proof. solve_decision. Defined.

(** The listener [handleClick] as an effect run makes it: it keeps the
    [isOpen] and the [marker] of the render the effect belongs to. *)
Inductive click_listener :=
| HandleClick (isOpen : bool) (marker : option string).

(** The state of a MarkerPopup: its [isOpen], its popup ref, and the
    listener registered on the marker's element. *)
Record PopupState := {
  popup_isOpen : bool;
  popupRef : option string;
  registered : option click_listener
}.

(** [useState(false)], refs null, nothing registered. *)
Definition popup_initial : PopupState :=
  {| popup_isOpen := false; popupRef := None; registered := None |}.

(** The effect of MarkerPopup, run in a render whose state is [s]: with
    map, marker and element at hand it makes the popup and registers
    [handleClick]. *)
Definition popup_effect (map : option handle) (context : MarkerContextValue)
    (s : PopupState) : PopupState :=
  match map, marker context, markerElement context with
  | Some _, Some mk, Some _ =>
      {| popup_isOpen := popup_isOpen s;
         popupRef := Some ("popup-of-" +:+ mk);
         registered := Some (HandleClick (popup_isOpen s) (marker context)) |}
  | _, _, _ => s
  end.

(** What happens to a MarkerPopup between two runs of its effect: the
    marker's element is clicked, or the popup fires [close].  [isOpen] is
    not among the effect's dependencies, so neither makes the effect run
    again. *)
Inductive popup_event := MarkerClicked | PopupClosed.

#[export] Instance popup_event_eq_dec : EqDecision popup_event.
Proof. solve_decision. Defined.

Definition set_isOpen (b : bool) (s : PopupState) : PopupState :=
  {| popup_isOpen := b; popupRef := popupRef s; registered := registered s |}.

Definition popup_handle (ev : popup_event) (s : PopupState) : PopupState * list popup_call :=
  match ev with
  | PopupClosed => (set_isOpen false s, [SetIsOpen false])
  | MarkerClicked =>
      match registered s with
      | None => (s, [])
      | Some (HandleClick isOpen marker) =>
          if negb (bool_decide (is_Some (popupRef s))) || negb (bool_decide (is_Some marker))
          then (s, [StopPropagation])
          else if isOpen
          then (set_isOpen false s, [StopPropagation; PopupRemove; SetIsOpen false])
          else (set_isOpen true s,
                [StopPropagation; PopupSetLngLat; PopupAddTo; SetIsOpen true])
      end
  end.

Fixpoint popup_run (evs : list popup_event) (s : PopupState) : PopupState * list popup_call :=
  match evs with
  | [] => (s, [])
  | ev :: rest =>
      let '(s1, calls1) := popup_handle ev s in
      let '(s2, calls2) := popup_run rest s1 in
      (s2, calls1 ++ calls2)
  end.

End Markers.

(** ** The map components: what mounting leaves on the engine *)

Module EngineUse.
Import Js Imp MapLibre MapWidget.

(** A command that keeps the map consistent, whether it returns or
    throws. *)
Definition keeps_consistent {A} (c : M engine A) : Prop :=
  ∀ m, consistent m → consistent (c m).2.

Definition listener_for (handler : option string) (event layerId : string)
  : list (string * string) :=
  if bool_decide (is_Some handler) then [(event, layerId)] else [].

(** The listeners a MapRoute registers when it mounts. *)
Definition registered_by_route (id : string) (interactive : option bool)
    (onClick onMouseEnter onMouseLeave : option string) : list (string * string) :=
  if default true interactive
  then listener_for onClick "click" (route_layerId id) ++
       listener_for onMouseEnter "mouseenter" (route_layerId id) ++
       listener_for onMouseLeave "mouseleave" (route_layerId id)
  else [].

(** The listeners a MapClusterLayer registers when it mounts. *)
Definition registered_by_cluster (onPointClick onClusterClick : option string)
  : list (string * string) :=
  listener_for onClusterClick "click" clusterLayerId ++
  listener_for onPointClick "click" pointLayerId ++
  [ ("mouseenter", clusterLayerId); ("mouseleave", clusterLayerId);
    ("mouseenter", pointLayerId); ("mouseleave", pointLayerId) ].

End EngineUse.

(** ** The stepper over JavaScript numbers

    Step values are JavaScript numbers, and the comparisons of StepperItem
    tell [NaN] from every other number: with [NaN] on either side, [===],
    [>] and [<] are all false.  This module embeds the stepper with that
    case in the number type, and with a caller's [onClick] as code of the
    caller that runs against the Stepper. *)

Module StepperNumbers.
Import Js Jsx.

(** A number as the comparisons see it: [NaN], or a value of the total
    order of the other numbers (the integers stand for that order). *)
Inductive number :=
| NaN
| Num (z : Z).

#[export] Instance number_eq_dec : EqDecision number.
Proof. solve_decision. Defined.

(** [a === b], [a > b] and [a < b] on numbers. *)
Definition strict_equal (a b : number) : bool :=
  match a, b with
  | Num x, Num y => bool_decide (x = y)
  | _, _ => false
  end.

Definition greater (a b : number) : bool :=
  match a, b with
  | Num x, Num y => bool_decide (x > y)
  | _, _ => false
  end.

Definition less (a b : number) : bool :=
  match a, b with
  | Num x, Num y => bool_decide (x < y)
  | _, _ => false
  end.

Record StepperContextValue := {
  activeStep : number;
  setActiveStep : option Stepper.step_setter
}.

(** [React.createContext({ activeStep: 0 })] *)
Definition StepperContext : StepperContextValue :=
  {| activeStep := Num 0; setActiveStep := None |}.

(** A mounted Stepper: its [useState] cell and its [onChange] prop. *)
Record instance := {
  state_activeStep : number;
  onChange : option string
}.

Inductive call :=
| OnChange (callback : string) (step : number)
| CallerHandler (name : string).

#[export] Instance call_eq_dec : EqDecision call.
Proof. solve_decision. Defined.

(** [value = 0] in the parameter list, then [useState(value)]. *)
Definition mount (value : option number) (onChange : option string) : instance :=
  {| state_activeStep := default (Num 0) value; onChange := onChange |}.

(** The effect on [value], which runs when the Stepper is rendered with
    another [value]: after the default, [value !== undefined] holds. *)
Definition valueEffect (value : option number) (s : instance) : instance :=
  {| state_activeStep := default (Num 0) value; onChange := onChange s |}.

Definition handleStepChange (s : instance) (step : number) : instance * list call :=
  ({| state_activeStep := step; onChange := onChange s |},
   match onChange s with
   | Some cb => [OnChange cb step]
   | None => []
   end).

(** The value of [StepperContext.Provider]. *)
Definition provided (s : instance) : StepperContextValue :=
  {| activeStep := state_activeStep s; setActiveStep := Some Stepper.HandleStepChange |}.

(** The closure [() => !isDisabled && setActiveStep?.(value)]. *)
Inductive item_click :=
| ItemClick (isDisabled : value) (setActiveStep : option Stepper.step_setter) (value : number).

(** What the handlers of the caller do to the Stepper when they run.  They
    are the caller's code: a handler may render the Stepper with another
    [value] (which the effect on [value] copies into the active step), and
    it may call anything, the [onChange] callback included. *)
Definition caller_code : Type := string → instance → instance * list call.

Section Render.
Variable cn : list value → string.
Context {C : Type}.

Definition isActive (ctx : StepperContextValue) (value : number) : bool :=
  strict_equal (activeStep ctx) value.
Definition isCompleted (ctx : StepperContextValue) (value : number) : bool :=
  greater (activeStep ctx) value.
Definition isDisabled (ctx : StepperContextValue) (value : number) (disabled : option bool)
  : Js.value :=
  or_ (of_option_bool disabled) (VBool (less (activeStep ctx) value)).

Definition StepperItem_classes (ctx : StepperContextValue) (className : Js.value)
    (value : number) (disabled : option bool) : list Js.value :=
  [ VStr "flex w-full items-center";
    and_ (not_ (isDisabled ctx value disabled)) (VStr "cursor-pointer");
    className ].

(** The attributes written out in the JSX of StepperItem. *)
Definition StepperItem_attributes (ctx : StepperContextValue) (className : Js.value)
    (value : number) (disabled : option bool) : gmap string (attr item_click) :=
  <[ "className" := AVal (VStr (cn (StepperItem_classes ctx className value disabled))) ]>
  (<[ "data-active" := AVal (VBool (isActive ctx value)) ]>
  (<[ "data-completed" := AVal (VBool (isCompleted ctx value)) ]>
  (<[ "data-disabled" := AVal (isDisabled ctx value disabled) ]>
  (<[ "onClick" := AOwn (ItemClick (isDisabled ctx value disabled) (setActiveStep ctx) value) ]>
   ∅)))).

(** [props] is what the caller passed besides the destructured
    [className], [value], [disabled] and [children]; it is spread last. *)
Definition StepperItem (ctx : StepperContextValue) (className : Js.value) (value : number)
    (disabled : option bool) (children : C) (props : gmap string (attr Empty_set))
  : element item_click C :=
  Element "div"
    (spread (StepperItem_attributes ctx className value disabled)
            (lift <$> omit ["className"; "value"; "disabled"; "children"] props))
    children.

End Render.

(** Running the [onClick] attribute of a rendered item inside the Stepper
    instance [s].  The item's own closure may reach [handleStepChange]; a
    handler of the caller, which the spread puts in its place, runs the
    caller's code; anything that is not a function is not called. *)
Definition click {C} (caller : caller_code) (item : element item_click C) (s : instance)
  : instance * list call :=
  match eprops item !! "onClick" with
  | Some (AOwn (ItemClick isDisabled setter value)) =>
      if truthy (not_ isDisabled)
      then match setter with
           | Some Stepper.HandleStepChange => handleStepChange s value
           | None => (s, [])
           end
      else (s, [])
  | Some (ACallback name) => caller name s
  | _ => (s, [])
  end.

(** The item carries [name="true"] in the document. *)
Definition marked {C} (name : string) (item : element item_click C) : Prop :=
  data_attribute (eprops item !! name) = Some "true".

Definition invokes_onChange (calls : list call) : bool :=
  existsb (λ c, match c with OnChange _ _ => true | CallerHandler _ => false end) calls.

(** The steps the Stepper reported through [onChange]. *)
Definition reported (calls : list call) : list number :=
  omap (λ c, match c with OnChange _ step => Some step | CallerHandler _ => None end) calls.

(** The props of one StepperItem. *)
Record item := Item {
  item_className : value;
  item_value : number;
  item_disabled : option bool;
  item_props : gmap string (attr Empty_set)
}.

Section Session.
Variable cn : list value → string.
Variable caller : caller_code.

(** The item as the Stepper in state [s] renders it. *)
Definition render (it : item) (s : instance) : element item_click unit :=
  StepperItem cn (provided s) (item_className it) (item_value it) (item_disabled it) tt
    (item_props it).

(** The items are clicked in turn; every click lands on the item as the
    Stepper renders it after the clicks before. *)
Fixpoint clicks (its : list item) (s : instance) : instance * list call :=
  match its with
  | [] => (s, [])
  | it :: rest =>
      let '(s1, calls1) := click caller (render it s) s in
      let '(s2, calls2) := clicks rest s1 in
      (s2, calls1 ++ calls2)
  end.

End Session.

End StepperNumbers.

(** ** A map object that may have been removed *)

Module MapUnmount.
Import Js Imp MapLibre MapWidget.

(** The map object a component holds through the context: a live engine,
    or one on which [remove()] has run.  [remove()] drops the style of the
    map, and the style methods ([getLayer], [getSource], [addLayer], ...)
    go through the style: called on a removed map they throw a
    TypeError. *)
Inductive map_object :=
| Live (m : engine)
| Removed.

Definition style_is_gone : thrown :=
  ErrorObject "Cannot read properties of undefined".

(** A piece of code that starts with a method call on the map, run on the
    map object. *)
Definition on_map {A} (c : M engine A) : M map_object A :=
  λ o, match o with
       | Live m => let '(r, m') := c m in (r, Live m')
       | Removed => (Throw style_is_gone, Removed)
       end.

(** [map.remove()], as the cleanup of Map calls it. *)
Definition map_remove : M map_object unit := λ _, (Normal tt, Removed).

(** The child alone is unmounted: only its cleanup runs. *)
Definition unmount_MapRoute (id : string) : M map_object unit :=
  on_map (MapRoute_cleanup id).

Definition unmount_MapClusterLayer : M map_object unit :=
  on_map MapClusterLayer_cleanup.

(** [<Map><MapRoute id=.. /></Map>] is unmounted as a whole: React runs
    the cleanup of Map, which removes the map, and then the cleanup of the
    child, on the same map object. *)
Definition unmount_Map_with_MapRoute (id : string) : M map_object unit :=
  map_remove ;! on_map (MapRoute_cleanup id).

Definition unmount_Map_with_MapClusterLayer : M map_object unit :=
  map_remove ;! on_map MapClusterLayer_cleanup.

End MapUnmount.

(* ===================================================================== *)
(** * Part II: properties                                                 *)
(* ===================================================================== *)

Section JsxFacts.
Import Js Jsx.
Context {O : Type}.

Lemma spread_lookup_rest (written rest : gmap string (attr O)) k a :
  rest !! k = Some a → spread written rest !! k = Some a.
Proof. intros H. unfold spread. by apply lookup_union_Some_l. Qed.

Lemma spread_lookup_written (written rest : gmap string (attr O)) k :
  rest !! k = None → spread written rest !! k = written !! k.
Proof. intros H. unfold spread. by rewrite lookup_union_r. Qed.

Lemma omit_lookup_named keys (props : gmap string (attr O)) k :
  k ∈ keys → omit keys props !! k = None.
Proof.
  intros Hk. unfold omit. apply map_lookup_filter_None. right.
  intros a _ Hn. by apply Hn.
Qed.

Lemma omit_lookup_other keys (props : gmap string (attr O)) k :
  k ∉ keys → omit keys props !! k = props !! k.
Proof.
  intros Hk. unfold omit. destruct (props !! k) as [a|] eqn:E.
  - by apply map_lookup_filter_Some.
  - apply map_lookup_filter_None. by left.
Qed.

End JsxFacts.

(** ** Stepper *)

Section StepperFacts.
Import Js Jsx Stepper.
Variable cn : list value → string.
Context {C : Type}.

(** A key the caller did not pass keeps the attribute the item writes. *)
Lemma StepperItem_written ctx className value disabled (children : C) props k :
  props !! k = None →
  eprops (StepperItem cn ctx className value disabled children props) !! k
  = StepperItem_attributes cn ctx className value disabled !! k.
Proof.
  intros Hk. unfold StepperItem. cbn [eprops].
  apply spread_lookup_written. rewrite lookup_fmap.
  destruct (decide (k ∈ ["className"; "value"; "disabled"; "children"])) as [Hin|Hout].
  - by rewrite omit_lookup_named.
  - by rewrite omit_lookup_other, Hk.
Qed.

(** A key the caller passed, other than the destructured ones, is what the
    document gets. *)
Lemma StepperItem_overridden ctx className value disabled (children : C) props k a :
  k ∉ ["className"; "value"; "disabled"; "children"] →
  props !! k = Some a →
  eprops (StepperItem cn ctx className value disabled children props) !! k = Some (lift a).
Proof.
  intros Hk Ha. unfold StepperItem. cbn [eprops].
  apply spread_lookup_rest. by rewrite lookup_fmap, omit_lookup_other, Ha.
Qed.

Lemma isDisabled_bool ctx value disabled :
  isDisabled ctx value disabled
  = VBool (bool_decide (disabled = Some true ∨ activeStep ctx < value)).
Proof.
  unfold isDisabled, or_. destruct disabled as [[]|]; cbn.
  - rewrite bool_decide_eq_true_2; [done | by left].
  - f_equal. apply bool_decide_ext. split; [by right | by intros [[=]|?]].
  - f_equal. apply bool_decide_ext. split; [by right | by intros [[=]|?]].
Qed.

Lemma marked_bool {D} (item : element item_click D) name b :
  eprops item !! name = Some (AVal (VBool b)) → marked name item ↔ b = true.
Proof. unfold marked. intros ->. destruct b; cbn; split; congruence. Qed.

(** C4 (as amended).  A StepperItem with step value [v], rendered with the
    active step [a] in its context and without [data-active],
    [data-completed] or [data-disabled] among the pass-through props, is
    marked active exactly when [a = v], completed exactly when [a > v], and
    disabled exactly when its [disabled] prop is true or [a < v]. *)
Theorem C4_item_marks ctx className value disabled (children : C) props :
  props !! "data-active" = None →
  props !! "data-completed" = None →
  props !! "data-disabled" = None →
  let item := StepperItem cn ctx className value disabled children props in
  (marked "data-active" item ↔ activeStep ctx = value) ∧
  (marked "data-completed" item ↔ activeStep ctx > value) ∧
  (marked "data-disabled" item ↔ disabled = Some true ∨ activeStep ctx < value).
Proof.
  intros Ha Hc Hd item. subst item. split_and!.
  - rewrite (marked_bool _ _ (isActive ctx value)).
    + unfold isActive. apply bool_decide_eq_true.
    + by rewrite StepperItem_written.
  - rewrite (marked_bool _ _ (isCompleted ctx value)).
    + unfold isCompleted. apply bool_decide_eq_true.
    + by rewrite StepperItem_written.
  - rewrite (marked_bool _ _ (bool_decide (disabled = Some true ∨ activeStep ctx < value))).
    + apply bool_decide_eq_true.
    + rewrite StepperItem_written by done. by rewrite <- isDisabled_bool.
Qed.

(** The click handler the document ends up with is the item's own closure
    unless the caller passed an [onClick]. *)
Lemma click_own ctx className value disabled (children : C) props s :
  props !! "onClick" = None →
  click (StepperItem cn ctx className value disabled children props) s
  = if truthy (not_ (isDisabled ctx value disabled))
    then match setActiveStep ctx with
         | Some HandleStepChange => handleStepChange s value
         | None => (s, [])
         end
    else (s, []).
Proof.
  intros H. unfold click. rewrite StepperItem_written by done.
  unfold StepperItem_attributes. by simplify_map_eq.
Qed.

End StepperFacts.

(** C4 as stated fails: the pass-through props are spread after the
    written attributes, so a caller's own [data-active] wins.  Here the
    active step equals the item's value, yet the item is not marked
    active. *)
Lemma C4_caller_attribute_wins :
  let s := Stepper.mount (Some 1) None in
  let item := Stepper.StepperItem Js.clsx (Stepper.provided s) Js.VUndefined 1 None tt
                {[ "data-active" := Jsx.AVal (Js.VBool false) ]} in
  Stepper.activeStep (Stepper.provided s) = 1 ∧ ¬ Stepper.marked "data-active" item.
Proof. split; [reflexivity|]. vm_compute. discriminate. Qed.

Lemma C4_item_marks_witness :
  let item := Stepper.StepperItem Js.clsx (Stepper.provided (Stepper.mount (Some 2) None))
                (Js.VStr "step") 1 None tt ∅ in
  (Stepper.marked "data-active" item ↔ 2 = 1) ∧
  (Stepper.marked "data-completed" item ↔ 2 > 1) ∧
  (Stepper.marked "data-disabled" item ↔ None = Some true ∨ 2 < 1).
Proof.
  apply (C4_item_marks Js.clsx (Stepper.provided (Stepper.mount (Some 2) None))
           (Js.VStr "step") 1 None tt ∅); reflexivity.
Defined.

(** ** Stepper: clicks, with NaN and the caller's handlers *)

Section StepperNumbersFacts.
Import Js Jsx StepperNumbers.
Variable cn : list value → string.
Context {C : Type}.


Lemma greater_Num x y : greater (Num x) (Num y) = true ↔ x > y.
Proof. apply bool_decide_eq_true. Qed.

Lemma strict_equal_Num x y : strict_equal (Num x) (Num y) = true ↔ x = y.
Proof. apply bool_decide_eq_true. Qed.

Lemma less_true a v : less a v = true ↔ ∃ x y, a = Num x ∧ v = Num y ∧ x < y.
Proof.
  destruct a as [|x], v as [|y]; cbn; try (split; [done | by intros (? & ? & ? & ? & _)]).
  rewrite bool_decide_eq_true. split.
  - intros H. by exists x, y.
  - by intros (? & ? & [= ->] & [= ->] & H).
Qed.


(** On numbers other than [NaN] the item computes what [Stepper] computes
    on the integers. *)
Lemma agrees_with_integer_steps a setter v disabled :
  let ctx := {| activeStep := Num a; setActiveStep := setter |} in
  let ctxZ := {| Stepper.activeStep := a; Stepper.setActiveStep := setter |} in
  isActive ctx (Num v) = Stepper.isActive ctxZ v ∧
  isCompleted ctx (Num v) = Stepper.isCompleted ctxZ v ∧
  isDisabled ctx (Num v) disabled = Stepper.isDisabled ctxZ v disabled.
Proof. done. Qed.

(** A key the caller did not pass keeps the attribute the item writes. *)
Lemma item_written ctx className value disabled (children : C) props k :
  props !! k = None →
  eprops (StepperItem cn ctx className value disabled children props) !! k
  = StepperItem_attributes cn ctx className value disabled !! k.
Proof.
  intros Hk. unfold StepperItem. cbn [eprops].
  apply spread_lookup_written. rewrite lookup_fmap.
  destruct (decide (k ∈ ["className"; "value"; "disabled"; "children"])) as [Hin|Hout].
  - by rewrite omit_lookup_named.
  - by rewrite omit_lookup_other, Hk.
Qed.


Lemma isDisabled_number ctx value disabled :
  isDisabled ctx value disabled
  = VBool (bool_decide (disabled = Some true ∨ less (activeStep ctx) value = true)).
Proof.
  unfold isDisabled, or_. destruct disabled as [[]|]; cbn.
  - rewrite bool_decide_eq_true_2; [done | by left].
  - f_equal. destruct (less (activeStep ctx) value).
    + rewrite bool_decide_eq_true_2; [done | by right].
    + rewrite bool_decide_eq_false_2; [done | by intros [[=]|[=]]].
  - f_equal. destruct (less (activeStep ctx) value).
    + rewrite bool_decide_eq_true_2; [done | by right].
    + rewrite bool_decide_eq_false_2; [done | by intros [[=]|[=]]].
Qed.

Lemma marked_number {D} (item : element item_click D) name b :
  eprops item !! name = Some (AVal (VBool b)) → marked name item ↔ b = true.
Proof. unfold marked. intros ->. destruct b; cbn; split; congruence. Qed.




End StepperNumbersFacts.



(** ** ButtonGroup *)

Section ClassFacts.
Import Js.

Lemma class_names_cons v args :
  class_names (v :: args) = (class_names [v] ++ class_names args)%list.
Proof. unfold class_names. cbn. by rewrite app_nil_r. Qed.

Lemma class_names_falsy v : truthy v = false → class_names [v] = [].
Proof.
  destruct v as [| |b|n|s]; try done. cbn. intros H.
  apply negb_false_iff, String.eqb_eq in H. by subst.
Qed.

Lemma class_names_and_true c v : truthy c = true → class_names [and_ c v] = class_names [v].
Proof. intros H. unfold and_. by rewrite H. Qed.

Lemma class_names_and_false c v : truthy c = false → class_names [and_ c v] = [].
Proof. intros H. unfold and_. rewrite H. by apply class_names_falsy. Qed.

Lemma truthy_and a b : truthy (and_ a b) = truthy a && truthy b.
Proof. unfold and_. destruct (truthy a) eqn:E; [done|]. by rewrite E. Qed.

(** A guarded class literal contributes its name exactly when the guard
    is truthy. *)
Lemma elem_of_guarded name c :
  String.words name = [name] →
  ∀ x, x ∈ class_names [and_ c (VStr name)] ↔ x = name ∧ truthy c = true.
Proof.
  intros Hw x. destruct (truthy c) eqn:E.
  - rewrite class_names_and_true by done. cbn. rewrite Hw, app_nil_r.
    rewrite list_elem_of_singleton. split; [by intros -> | by intros [-> _]].
  - rewrite class_names_and_false by done. rewrite elem_of_nil.
    split; [done | by intros [_ ?]].
Qed.

Lemma elem_of_guarded_cons name c args :
  String.words name = [name] →
  ∀ x, x ∈ class_names (and_ c (VStr name) :: args)
       ↔ (x = name ∧ truthy c = true) ∨ x ∈ class_names args.
Proof.
  intros Hw x. by rewrite class_names_cons, elem_of_app, elem_of_guarded.
Qed.

Lemma not_elem_of_class_names_nil x : x ∈ class_names [] ↔ False.
Proof. cbn. apply elem_of_nil. Qed.

Lemma truthy_guard P `{Decision P} : truthy (VBool (bool_decide P)) = true ↔ P.
Proof. cbn. apply bool_decide_eq_true. Qed.

End ClassFacts.

Section ButtonGroupFacts.
Import Js Jsx ButtonGroup.
Variable cn : list value → string.
Context {C : Type}.

(** Which names the positional arguments stand for, guard by guard. *)
Lemma elem_of_positional_classes x pill count index :
  x ∈ class_names (positional_classes pill count index) ↔
    (x = "rounded-l-md" ∧ index = 0) ∨
    (x = "rounded-r-md" ∧ index = count - 1) ∨
    (x = "rounded-none" ∧ index ≠ 0 ∧ index ≠ count - 1) ∨
    (x = "rounded-l-full" ∧ truthy pill = true ∧ index = 0) ∨
    (x = "rounded-r-full" ∧ truthy pill = true ∧ index = count - 1) ∨
    (x = "border-l-0" ∧ index ≠ 0).
Proof.
  unfold positional_classes.
  rewrite !elem_of_guarded_cons by reflexivity.
  rewrite not_elem_of_class_names_nil.
  rewrite !truthy_and, !andb_true_iff, !truthy_guard. tauto.
Qed.

Lemma Children_map_call (f : @node C → Z → @node C) (children : list (@node C)) i child :
  children !! i = Some child →
  imap (λ i child, f child (Z.of_nat i)) children !! i = Some (f child (Z.of_nat i)).
Proof. intros H. by rewrite list_lookup_imap, H. Qed.

(** In a ButtonGroup, indices run over every child node, empty ones
    included.  For a child that is a valid element, the class list handed
    to [cn] holds the left-rounding class exactly when its index is 0, the
    right-rounding class exactly when its index is the last one (with the
    full-rounding class of that side as well exactly when [pill] is set),
    and [rounded-none] exactly when it is strictly in between.  A child
    that is not a valid element is returned as it is. *)
Lemma rounding_by_index pill (children : list (@node C)) (i : nat) e :
  children !! i = Some (NElement e) →
  let count := Children_count children in
  let index := Z.of_nat i in
  let names := class_names (positional_classes pill count index) in
  imap (λ i child, renderChild cn pill children child (Z.of_nat i)) children !! i
    = Some (NElement (cloneElement e
        {[ "className" :=
             AVal (VStr (cn (className_of e :: positional_classes pill count index))) ]})) ∧
  ("rounded-l-md" ∈ names ↔ index = 0) ∧
  ("rounded-r-md" ∈ names ↔ index = count - 1) ∧
  ("rounded-none" ∈ names ↔ index ≠ 0 ∧ index ≠ count - 1) ∧
  ("rounded-l-full" ∈ names ↔ truthy pill = true ∧ index = 0) ∧
  ("rounded-r-full" ∈ names ↔ truthy pill = true ∧ index = count - 1) ∧
  (∀ child index', isValidElement child = false →
                   renderChild cn pill children child index' = child).
Proof.
  intros Hi count index names. subst names. split.
  - by rewrite (Children_map_call _ _ _ _ Hi).
  - rewrite !elem_of_positional_classes.
    split_and!;
      try (split; [intros H; repeat destruct H as [H|H]; by destruct H | tauto]).
    by intros [| | |e'] index'.
Qed.

(** When the one and only child node of a ButtonGroup is a valid element,
    the class list handed to [cn] for it holds both the left- and the
    right-rounding class (and both full-rounding classes when [pill] is
    set) and not [rounded-none]; a child that is not a valid element is
    returned as it is, at any position. *)
Lemma only_child_node_rounded_both_ends pill (e : element Empty_set C) :
  let names := class_names (positional_classes pill (Children_count [NElement e]) 0) in
  Children_map (renderChild cn pill [NElement e]) [NElement e]
    = [NElement (cloneElement e
         {[ "className" := AVal (VStr (cn (className_of e :: positional_classes pill 1 0))) ]})] ∧
  "rounded-l-md" ∈ names ∧ "rounded-r-md" ∈ names ∧ ("rounded-none" ∉ names) ∧
  (truthy pill = true → "rounded-l-full" ∈ names ∧ "rounded-r-full" ∈ names) ∧
  (∀ (children : list (@node C)) child index,
      isValidElement child = false → renderChild cn pill children child index = child).
Proof.
  intros names. subst names. rewrite !elem_of_positional_classes.
  change (Children_count [NElement e]) with 1.
  split_and!; try tauto.
  - intros H. repeat destruct H as [H|H]; destruct H as [? H]; [done..|lia|done|done|done].
  - by intros children [| | |e'] index.
Qed.

(** C3.  The claim fails on a group whose first child node is empty (a
    false condition, say) and is followed by two buttons.  The empty node
    takes index 0 and is not rendered; the first button that is rendered
    has index 1 of 3, so the class list handed to [cn] for it holds
    [rounded-none] and [border-l-0] and no left-rounding class, with or
    without [pill]; the second button has no left-rounding class either.
    No rendered child is rounded on the left. *)
Theorem C3_first_button_after_empty_node className v sz fullWidth pill props
    (b1 b2 : element Empty_set C) :
  let children := [NEmpty; NElement b1; NElement b2] in
  let first := class_names (positional_classes pill (Children_count children) 1) in
  let second := class_names (positional_classes pill (Children_count children) 2) in
  echildren (ButtonGroup cn className v sz fullWidth pill children props)
    = [ NElement (cloneElement b1
          {[ "className" :=
               AVal (VStr (cn (className_of b1 :: positional_classes pill 3 1))) ]});
        NElement (cloneElement b2
          {[ "className" :=
               AVal (VStr (cn (className_of b2 :: positional_classes pill 3 2))) ]}) ] ∧
  ("rounded-l-md" ∉ first) ∧ ("rounded-l-full" ∉ first) ∧
  "rounded-none" ∈ first ∧ "border-l-0" ∈ first ∧
  ("rounded-l-md" ∉ second) ∧ ("rounded-l-full" ∉ second).
Proof.
  intros children first second. subst children first second.
  change (Children_count [NEmpty; NElement b1; NElement b2]) with 3.
  split; [reflexivity|].
  rewrite !elem_of_positional_classes.
  split_and!; try (intros H; repeat destruct H as [H|H]; destruct H as [? H]; try done; lia).
  - right. right. left. split_and!; [done|lia..].
  - do 5 right. split; [done|lia].
Qed.

(** C10.  The claim fails on a group whose only element child is followed
    by an empty node (a false condition, say).  The group has exactly one
    valid element child and renders that child alone, but the last index
    is counted over both nodes: the class list handed to [cn] for the
    child holds [rounded-l-md] and no right-rounding class, with or
    without [pill].  The lone button is rounded on the left only. *)
Theorem C10_lone_button_before_empty_node className v sz fullWidth pill props
    (b : element Empty_set C) :
  let children := [NElement b; NEmpty] in
  let names := class_names (positional_classes pill (Children_count children) 0) in
  length (filter (λ child, isValidElement child = true) children) = 1%nat ∧
  echildren (ButtonGroup cn className v sz fullWidth pill children props)
    = [ NElement (cloneElement b
          {[ "className" :=
               AVal (VStr (cn (className_of b :: positional_classes pill 2 0))) ]}) ] ∧
  "rounded-l-md" ∈ names ∧
  ("rounded-r-md" ∉ names) ∧ ("rounded-r-full" ∉ names).
Proof.
  intros children names. subst children names.
  change (Children_count [NElement b; NEmpty]) with 2.
  split; [reflexivity|]. split; [reflexivity|].
  rewrite !elem_of_positional_classes.
  split_and!; try (intros H; repeat destruct H as [H|H]; destruct H as [? H]; try done; lia).
  by left.
Qed.

End ButtonGroupFacts.

(** ** ListItem *)

Section ListItemFacts.
Import Js Jsx ListView.
Variable cn : list value → string.
Context {C : Type}.

Lemma ListItem_written className asChild selected disabled (children : C) props k :
  props !! k = None →
  eprops (ListItem cn className asChild selected disabled children props) !! k
  = ListItem_attributes cn className (default false selected) (default false disabled) !! k.
Proof.
  intros Hk. unfold ListItem. cbn [eprops]. apply spread_lookup_written.
  destruct (decide (k ∈ ["className"; "asChild"; "selected"; "disabled"])).
  - by apply omit_lookup_named.
  - by rewrite omit_lookup_other.
Qed.

(** The class list of a ListItem, part by part. *)
Lemma ListItem_class_names className selected disabled :
  class_names (ListItem_classes className selected disabled)
  = (class_names (take 3 (ListItem_classes className selected disabled))
     ++ (if selected then ["bg-accent"; "text-accent-foreground"] else [])
     ++ (if disabled then ["pointer-events-none"; "opacity-50"] else [])
     ++ class_names [className])%list.
Proof. by destruct selected, disabled. Qed.

(** C7 (as amended).  A ListItem that is passed no [data-selected] of its
    own among the pass-through props carries [data-selected="true"] and the
    classes [bg-accent] and [text-accent-foreground] when [selected] is
    true; when [selected] is false or left out it carries
    [data-selected="false"] and the component adds neither class (either
    can then only come from the caller's own [className]). *)
Theorem C7_selected_state className asChild selected disabled (children : C) props :
  props !! "data-selected" = None →
  let item := ListItem cn className asChild selected disabled children props in
  let classes := ListItem_classes className (default false selected) (default false disabled) in
  eprops item !! "className" = Some (AVal (VStr (cn classes))) ∧
  (selected = Some true →
     data_attribute (eprops item !! "data-selected") = Some "true" ∧
     "bg-accent" ∈ class_names classes ∧ "text-accent-foreground" ∈ class_names classes) ∧
  (selected = Some false ∨ selected = None →
     data_attribute (eprops item !! "data-selected") = Some "false" ∧
     ∀ x, x = "bg-accent" ∨ x = "text-accent-foreground" →
          x ∈ class_names classes → x ∈ class_names [className]).
Proof.
  intros Hk item classes. subst item classes. split_and!.
  - unfold ListItem. cbn [eprops]. rewrite spread_lookup_written.
    + unfold ListItem_attributes. by simplify_map_eq.
    + apply omit_lookup_named. by apply (bool_decide_unpack _).
  - intros ->. rewrite ListItem_written by done. split; [done|].
    rewrite ListItem_class_names. cbn [default].
    split; (apply elem_of_app; right; apply elem_of_app; left);
      by apply (bool_decide_unpack _).
  - intros Hsel. rewrite ListItem_written by done.
    assert (default false selected = false) as -> by (by destruct Hsel as [-> | ->]).
    split; [done|]. intros x Hx. rewrite ListItem_class_names.
    rewrite !elem_of_app. intros [Hbase|[Hsel'|[Hdis|Hcls]]]; [| |  |done].
    + exfalso. revert Hbase. destruct Hx as [-> | ->]; by apply (bool_decide_unpack _).
    + by apply elem_of_nil in Hsel'.
    + exfalso. revert Hdis.
      destruct (default false disabled), Hx as [-> | ->]; by apply (bool_decide_unpack _).
Qed.

End ListItemFacts.

(** C7 as stated fails: the pass-through props are spread after
    [data-selected], so a caller's own [data-selected] wins.  Here
    [selected] is true and the element carries [data-selected="false"]. *)
Lemma C7_caller_attribute_wins :
  let item := ListView.ListItem Js.clsx Js.VUndefined None (Some true) None tt
                {[ "data-selected" := Jsx.AVal (Js.VStr "false") ]} in
  Jsx.data_attribute (Jsx.eprops item !! "data-selected") = Some "false".
Proof. reflexivity. Qed.

Lemma C7_selected_state_witness :
  let item := ListView.ListItem Js.clsx (Js.VStr "w-full") None (Some true) None tt ∅ in
  Jsx.data_attribute (Jsx.eprops item !! "data-selected") = Some "true".
Proof.
  pose proof (C7_selected_state Js.clsx (Js.VStr "w-full") None (Some true) None tt ∅ eq_refl)
    as (_ & Hsel & _).
  exact (proj1 (Hsel eq_refl)).
Defined.

(** ** Toaster *)

Section ToasterFacts.
Import Js Jsx Sonner.
Variable cn : list value → string.

(** C8 (as amended).  A Toaster whose caller passes neither [theme] nor
    [icons] hands the toast engine the theme of the theme hook, or
    ["system"] when the hook has none, and an icon for each of the five
    statuses. *)
Theorem C8_theme_and_icons_forwarded useTheme_theme props :
  props !! "theme" = None →
  props !! "icons" = None →
  let toaster := Toaster cn useTheme_theme props in
  passed_theme toaster = Some (AVal (VStr (default "system" useTheme_theme))) ∧
  (∀ status, status ∈ statuses → is_Some (passed_icon toaster status)).
Proof.
  intros Ht Hi toaster. subst toaster. unfold passed_theme, passed_icon, Toaster. cbn [eprops].
  rewrite !spread_lookup_written by done. split; [done|].
  intros status Hs. unfold Toaster_attributes. simplify_map_eq.
  unfold statuses in Hs. rewrite !elem_of_cons, elem_of_nil in Hs.
  destruct Hs as [->|[->|[->|[->|[->|[]]]]]]; by eexists.
Qed.

End ToasterFacts.

(** C8 as stated fails: the caller's props are spread after [theme] and
    [icons].  A caller's [theme] replaces the resolved one, and a caller's
    [icons] object replaces the whole icon table. *)
Lemma C8_caller_props_win :
  Sonner.passed_theme
    (Sonner.Toaster Js.clsx (Some "dark") {[ "theme" := Jsx.AVal (Js.VStr "light") ]})
    = Some (Jsx.AVal (Js.VStr "light")) ∧
  Sonner.passed_icon
    (Sonner.Toaster Js.clsx None
       {[ "icons" := Jsx.AOwn (Sonner.Icons {[ "success" := Sonner.Icon "CheckIcon" "size-4" ]}) ]})
    "error" = None.
Proof. split; reflexivity. Qed.

Lemma C8_theme_and_icons_forwarded_witness :
  Sonner.passed_theme (Sonner.Toaster Js.clsx None {[ "position" := Jsx.AVal (Js.VStr "top-right") ]})
    = Some (Jsx.AVal (Js.VStr "system")).
Proof.
  exact (proj1 (C8_theme_and_icons_forwarded Js.clsx None
                  {[ "position" := Jsx.AVal (Js.VStr "top-right") ]} eq_refl eq_refl)).
Defined.

(** ** Map: contexts *)

Section ContextFacts.
Import Js Jsx MapWidget.
Variable cn : list value → string.
Context {C : Type}.

(** The guard of [useMap] tests a value that is never [null]: without a
    provider it is the default object, and the one provider in the file
    passes an object. *)
Lemma useMap_never_throws_without_provider amb :
  MapProvider amb = None → useMap amb = Normal {| map := None; isLoaded := false |}.
Proof. intros H. unfold useMap. by rewrite H. Qed.

Lemma useMap_under_Map s amb : useMap (under_Map s amb) = Normal (Map_provided s).
Proof. reflexivity. Qed.

Lemma MarkerPopup_outside_MapMarker amb container className (children : C) :
  MarkerProvider amb = None →
  MapProvider amb ≠ Some None →
  MarkerPopup cn amb container className children
  = Throw (ErrorObject "MarkerPopup must be used within a MapMarker").
Proof.
  intros Hm Hp. unfold MarkerPopup, useMap. rewrite Hm.
  destruct (MapProvider amb) as [[c|]|]; done.
Qed.

Lemma MarkerTooltip_outside_MapMarker amb container className (children : C) :
  MarkerProvider amb = None →
  MapProvider amb ≠ Some None →
  MarkerTooltip cn amb container className children
  = Throw (ErrorObject "MarkerTooltip must be used within a MapMarker").
Proof.
  intros Hm Hp. unfold MarkerTooltip, useMap. rewrite Hm.
  destruct (MapProvider amb) as [[c|]|]; done.
Qed.

Lemma Marker_children_under_MapMarker s mk el amb container className (children : C) :
  throws (MarkerPopup cn (under_MapMarker mk el (under_Map s amb)) container className children)
    = false ∧
  throws (MarkerTooltip cn (under_MapMarker mk el (under_Map s amb)) container className children)
    = false.
Proof. by destruct container. Qed.

End ContextFacts.

(** C1.  The claim holds for MarkerPopup and MarkerTooltip (lemmas above)
    and fails for [useMap]: rendered outside every Map, the hook does not
    throw, it returns the default context object.  The [throw] in the hook
    is guarded by [!context], and the context is created with a default
    object, so the guard is never true. *)
Theorem C1_useMap_outside_Map_does_not_throw :
  MapWidget.useMap MapWidget.outside
    = Js.Normal {| MapWidget.map := None; MapWidget.isLoaded := false |} ∧
  Js.throws (MapWidget.useMap MapWidget.outside) = false.
Proof. split; reflexivity. Qed.

(** ** Map: lifecycle *)

Section LifecycleFacts.
Import Js Imp MapWidget.
Variable remove : handle → completion unit.

(** What the cleanup leaves behind when an instance is stored, case by
    case on what [remove()] did. *)
Lemma cleanup_stored s instance :
  mapInstance s = Some instance →
  cleanup remove s
  = (Normal tt,
     {| mapContainer := mapContainer s;
        mapInstance := None;
        state_isLoaded := false;
        engines := filter (λ h, h ≠ instance) (engines s);
        constructed := constructed s;
        console :=
          match remove instance with
          | Throw (ErrorObject message) =>
              if includes "aborted" message then console s
              else console s ++ [ConsoleError "Error removing map:" (ErrorObject message)]
          | _ => console s
          end |}).
Proof.
  intros H. unfold cleanup, bind, get. rewrite H.
  unfold try_catch_finally, instance_remove.
  destruct (remove instance) as [[]|[message|v]]; cbn; [done| |done].
  by destruct (includes "aborted" message).
Qed.

Lemma cleanup_nothing_stored s : mapInstance s = None → cleanup remove s = (Normal tt, s).
Proof. intros H. unfold cleanup, bind, get. by rewrite H. Qed.

(** C2 (as amended).  When the cleanup of Map runs with an instance
    stored: it never rethrows; an [Error] thrown by [remove()] whose
    message contains "aborted" is not logged; any other [Error] thrown by
    [remove()] is logged; a thrown value that is not an [Error] is not
    logged either; and whether [remove()] threw or not, the stored handle
    ends up null and the loaded flag false. *)
Theorem C2_cleanup_suppresses_and_resets s instance :
  mapInstance s = Some instance →
  let result := cleanup remove s in
  result.1 = Normal tt ∧
  mapInstance result.2 = None ∧
  state_isLoaded result.2 = false ∧
  (∀ message, remove instance = Throw (ErrorObject message) →
     includes "aborted" message = true → console result.2 = console s) ∧
  (∀ message, remove instance = Throw (ErrorObject message) →
     includes "aborted" message = false →
     console result.2 = console s ++ [ConsoleError "Error removing map:" (ErrorObject message)]) ∧
  (∀ v, remove instance = Throw (NotAnError v) → console result.2 = console s) ∧
  (remove instance = Normal tt → console result.2 = console s).
Proof.
  intros H result. subst result. rewrite (cleanup_stored _ _ H). cbn.
  split_and!; try done.
  - by intros message -> ->.
  - by intros message -> ->.
  - by intros v ->.
  - by intros ->.
Qed.

(** A thrown value that is not an [Error] is swallowed without a log. *)
Lemma cleanup_swallows_non_errors s instance v :
  mapInstance s = Some instance →
  remove instance = Throw (NotAnError v) →
  (cleanup remove s).1 = Normal tt ∧ console (cleanup remove s).2 = console s.
Proof. intros H Hr. rewrite (cleanup_stored _ _ H), Hr. done. Qed.

Lemma lifecycle_invariant_step m m' :
  lifecycle_invariant m → step remove m m' → lifecycle_invariant m'.
Proof.
  intros [Hone Hheld] Hstep. destruct Hstep as [c s held|s|s|s held h Hh];
    unfold lifecycle_invariant in *; cbn [component held_cleanup] in *.
  - done.
  - unfold initEffect.
    destruct (mapContainer s) as [c|], (mapInstance s) as [i|] eqn:E; cbn; rewrite ?E;
      try (split; [done|by intros [=]]).
    split; [by rewrite Hone|by eexists].
  - destruct (Hheld eq_refl) as [i Hi]. rewrite (cleanup_stored _ _ Hi). cbn.
    split; [|by intros [=]]. rewrite Hone, Hi. cbn.
    by rewrite decide_False by (intros Hn; by apply Hn).
  - done.
Qed.

Lemma reachable_invariant m : reachable remove m → lifecycle_invariant m.
Proof.
  unfold reachable. intros H.
  eapply (rtc_ind_r (λ m, lifecycle_invariant m)); [| |exact H].
  - split; [done|by intros [=]].
  - intros y z _ Hstep IH. by eapply lifecycle_invariant_step.
Qed.

(** C5.  In every state a mounted Map can reach, at most one engine has
    been constructed and not yet removed, and it is the stored one; the
    initializing effect does nothing when an instance is stored, so it
    constructs an engine only when none is; and after the cleanup the
    stored handle is null and no engine is left. *)
Theorem C5_single_engine m :
  reachable remove m →
  let s := component m in
  (length (engines s) ≤ 1)%nat ∧
  engines s = option_list (mapInstance s) ∧
  (is_Some (mapInstance s) → initEffect s = (s, false)) ∧
  (engines (initEffect s).1 ≠ engines s → mapInstance s = None) ∧
  mapInstance (cleanup remove s).2 = None ∧
  engines (cleanup remove s).2 = [].
Proof.
  intros Hr s. subst s. destruct (reachable_invariant _ Hr) as [Hone _]. clear Hr.
  destruct m as [s held]. cbn [component] in *.
  assert (Hnoop : is_Some (mapInstance s) → initEffect s = (s, false)).
  { intros [i Hi]. unfold initEffect. rewrite Hi. cbn. by rewrite orb_true_r. }
  split_and!.
  - rewrite Hone. destruct (mapInstance s); cbn; lia.
  - done.
  - done.
  - intros Hchg. destruct (mapInstance s) as [i|] eqn:E; [|done].
    rewrite Hnoop in Hchg by by eexists. done.
  - destruct (mapInstance s) as [i|] eqn:E.
    + by rewrite (cleanup_stored _ _ E).
    + by rewrite cleanup_nothing_stored.
  - destruct (mapInstance s) as [i|] eqn:E.
    + rewrite (cleanup_stored _ _ E). cbn. rewrite Hone. cbn.
      by rewrite decide_False by (intros Hn; by apply Hn).
    + rewrite cleanup_nothing_stored by done. cbn. by rewrite Hone.
Qed.

End LifecycleFacts.

(** C2 as stated fails: only an [Error] is ever logged.  When [remove()]
    throws a value that is not an [Error] (a string, here, without
    "aborted" in it), the cleanup neither rethrows nor logs it. *)
Lemma C2_thrown_non_error_is_not_logged :
  let remove := λ _ : MapWidget.handle, Js.Throw (A:=unit) (Js.NotAnError (Js.VStr "boom")) in
  let s := (MapWidget.initEffect (MapWidget.set_container (Some "map") MapWidget.initial)).1 in
  MapWidget.mapInstance s = Some 0%nat ∧
  Js.includes "aborted" "boom" = false ∧
  (MapWidget.cleanup remove s).1 = Js.Normal tt ∧
  MapWidget.console (MapWidget.cleanup remove s).2 = [].
Proof. split_and!; reflexivity. Qed.

Lemma C2_cleanup_suppresses_and_resets_witness :
  let remove := λ _ : MapWidget.handle,
                  Js.Throw (A:=unit) (Js.ErrorObject "signal is aborted without reason") in
  let s := (MapWidget.initEffect (MapWidget.set_container (Some "map") MapWidget.initial)).1 in
  (MapWidget.cleanup remove s).1 = Js.Normal tt ∧
  MapWidget.mapInstance (MapWidget.cleanup remove s).2 = None ∧
  MapWidget.state_isLoaded (MapWidget.cleanup remove s).2 = false ∧
  MapWidget.console (MapWidget.cleanup remove s).2 = [].
Proof.
  destruct (C2_cleanup_suppresses_and_resets
              (λ _, Js.Throw (Js.ErrorObject "signal is aborted without reason"))
              (MapWidget.initEffect (MapWidget.set_container (Some "map") MapWidget.initial)).1
              0%nat eq_refl) as (H1 & H2 & H3 & H4 & _).
  split_and!; [exact H1 | exact H2 | exact H3 | exact (H4 _ eq_refl eq_refl)].
Defined.

Lemma C5_single_engine_witness :
  let remove := λ _ : MapWidget.handle, Js.Normal tt in
  let s := (MapWidget.initEffect (MapWidget.set_container (Some "map") MapWidget.initial)).1 in
  (length (MapWidget.engines s) ≤ 1)%nat ∧
  MapWidget.mapInstance (MapWidget.cleanup remove s).2 = None.
Proof.
  assert (Hr : MapWidget.reachable (λ _, Js.Normal tt)
                 {| MapWidget.component :=
                      (MapWidget.initEffect
                         (MapWidget.set_container (Some "map") MapWidget.initial)).1;
                    MapWidget.held_cleanup := true |}).
  { eapply rtc_l; [apply (MapWidget.step_ref _ (Some "map"))|].
    eapply rtc_l; [apply MapWidget.step_effect|]. apply rtc_refl. }
  destruct (C5_single_engine _ _ Hr) as (Hle & _ & _ & _ & Hnull & _).
  split; [exact Hle | exact Hnull].
Defined.

(** ** MapRoute and MapClusterLayer: teardown *)

Section TeardownFacts.
Import Js Imp MapLibre MapWidget.

Lemma bind_normal {S A B} (c : M S A) (k : A → M S B) s a s' :
  c s = (Normal a, s') → Imp.bind c k s = k a s'.
Proof. intros H. unfold Imp.bind. by rewrite H. Qed.

Lemma bind_throw {S A B} (c : M S A) (k : A → M S B) s t s' :
  c s = (Throw t, s') → Imp.bind c k s = (Throw t, s').
Proof. intros H. unfold Imp.bind. by rewrite H. Qed.

Ltac run_engine :=
  unfold getLayer, getSource, removeLayer, removeSource, addSource, addLayer, on,
    record, fire, set_layers, set_sources, when,
    Imp.bind, Imp.get, Imp.modify, Imp.ret, Imp.throw;
  cbn [sources layers listeners errors calls fst snd negb].

(** The guarded removal of a layer never throws and fires no error. *)
Lemma remove_layer_if_present_run id m :
  remove_layer_if_present id m
  = (Normal tt,
     Engine (sources m) (delete id (layers m)) (listeners m) (errors m)
       (calls m ++ (let found := bool_decide (is_Some (layers m !! id)) in
                    GetLayer id found :: (if found then [RemoveLayer id] else [])))).
Proof.
  unfold remove_layer_if_present. run_engine.
  destruct (layers m !! id) as [l|] eqn:E; cbn; rewrite ?E.
  - by rewrite <- app_assoc.
  - by rewrite delete_id.
Qed.

(** The guarded removal of a source never throws either: a source that a
    layer still uses stays, with an error event. *)
Lemma remove_source_if_present_run id m :
  remove_source_if_present id m
  = (Normal tt,
     let found := bool_decide (is_Some (sources m !! id)) in
     Engine (if found && negb (in_use id m) then delete id (sources m) else sources m)
       (layers m) (listeners m)
       (errors m ++ (if found && in_use id m
                     then ["Source " +:+ id +:+ " cannot be removed while a layer is using it."]
                     else []))
       (calls m ++ GetSource id found :: (if found then [RemoveSource id] else []))).
Proof.
  unfold remove_source_if_present. run_engine.
  destruct (sources m !! id) as [x|] eqn:E; cbn; rewrite ?E.
  - unfold in_use. cbn [layers]. fold (in_use id m).
    destruct (in_use id m); cbn; by rewrite <- app_assoc, ?app_nil_r.
  - by rewrite app_nil_r.
Qed.

Lemma MapRoute_cleanup_run id m :
  MapRoute_cleanup id m
  = (Normal tt,
     let found := bool_decide (is_Some (sources m !! route_sourceId id)) in
     let used := in_use (route_sourceId id)
                   (Engine (sources m) (delete (route_layerId id) (layers m)) [] [] []) in
     Engine (if found && negb used then delete (route_sourceId id) (sources m) else sources m)
       (delete (route_layerId id) (layers m)) (listeners m)
       (errors m ++ (if found && used
                     then ["Source " +:+ route_sourceId id
                           +:+ " cannot be removed while a layer is using it."]
                     else []))
       (calls m ++ checked_removals m [route_layerId id] (route_sourceId id))).
Proof.
  unfold MapRoute_cleanup.
  rewrite (bind_normal _ _ _ _ _ (remove_layer_if_present_run _ _)).
  rewrite remove_source_if_present_run. cbn [sources layers listeners errors calls].
  unfold checked_removals. cbn [flat_map]. rewrite app_nil_r.
  by rewrite <- !app_assoc.
Qed.

Lemma cluster_layers_distinct :
  pointLayerId ≠ clusterCountLayerId ∧ pointLayerId ≠ clusterLayerId ∧
  clusterCountLayerId ≠ clusterLayerId.
Proof. done. Qed.

Lemma MapClusterLayer_cleanup_run m :
  MapClusterLayer_cleanup m
  = (Normal tt,
     let remaining :=
       delete clusterLayerId (delete clusterCountLayerId (delete pointLayerId (layers m))) in
     let found := bool_decide (is_Some (sources m !! cluster_sourceId)) in
     let used := in_use cluster_sourceId (Engine (sources m) remaining [] [] []) in
     Engine (if found && negb used then delete cluster_sourceId (sources m) else sources m)
       remaining (listeners m)
       (errors m ++ (if found && used
                     then ["Source " +:+ cluster_sourceId
                           +:+ " cannot be removed while a layer is using it."]
                     else []))
       (calls m ++ checked_removals m [pointLayerId; clusterCountLayerId; clusterLayerId]
                     cluster_sourceId)).
Proof.
  destruct cluster_layers_distinct as (Hpc & Hpl & Hcl).
  unfold MapClusterLayer_cleanup.
  rewrite (bind_normal _ _ _ _ _ (remove_layer_if_present_run _ _)).
  rewrite (bind_normal _ _ _ _ _ (remove_layer_if_present_run _ _)).
  rewrite (bind_normal _ _ _ _ _ (remove_layer_if_present_run _ _)).
  rewrite remove_source_if_present_run. cbn [sources layers listeners errors calls].
  unfold checked_removals. cbn [flat_map].
  rewrite !lookup_delete_ne by done.
  rewrite app_nil_r. by rewrite <- !app_assoc.
Qed.

(** Mounting on free ids. *)
Lemma add_source_if_absent_fresh id spec m :
  sources m !! id = None →
  add_source_if_absent id spec m
  = (Normal tt,
     Engine (<[id := spec]> (sources m)) (layers m) (listeners m) (errors m)
            (calls m ++ [GetSource id false; AddSource id])).
Proof.
  intros H. unfold add_source_if_absent. run_engine. rewrite H. cbn. rewrite H.
  by rewrite <- app_assoc.
Qed.

Lemma addSource_fresh id spec m :
  sources m !! id = None →
  addSource id spec m
  = (Normal tt,
     Engine (<[id := spec]> (sources m)) (layers m) (listeners m) (errors m)
            (calls m ++ [AddSource id])).
Proof. intros H. run_engine. by rewrite H. Qed.

Lemma addLayer_fresh id spec m :
  layers m !! id = None →
  is_Some (sources m !! layer_source spec) →
  addLayer id spec m
  = (Normal tt,
     Engine (sources m) (<[id := spec]> (layers m)) (listeners m) (errors m)
            (calls m ++ [AddLayer id])).
Proof. intros H [x Hx]. run_engine. by rewrite H, Hx. Qed.

Lemma add_layer_if_absent_fresh id spec m :
  layers m !! id = None →
  is_Some (sources m !! layer_source spec) →
  add_layer_if_absent id spec m
  = (Normal tt,
     Engine (sources m) (<[id := spec]> (layers m)) (listeners m) (errors m)
            (calls m ++ [GetLayer id false; AddLayer id])).
Proof.
  intros H [x Hx]. unfold add_layer_if_absent. run_engine. rewrite H. cbn.
  rewrite H, Hx. by rewrite <- app_assoc.
Qed.

(** Run the next command of a sequence with the lemma that describes it. *)
Ltac engine_step lem :=
  erewrite bind_normal;
  [ | apply lem; cbn [sources layers];
      rewrite ?lookup_insert_eq, ?lookup_insert_ne by done;
      first [done | by eexists] ].

(** Registering listeners keeps the style. *)
Lemma keeps_style_on event layerId : keeps_style (on event layerId).
Proof. done. Qed.

Lemma keeps_style_when b c : keeps_style c → keeps_style (when b c).
Proof. intros H. by destruct b. Qed.

Lemma keeps_style_seq c1 c2 : keeps_style c1 → keeps_style c2 → keeps_style (c1 ;! c2).
Proof.
  intros H1 H2 m. destruct (H1 m) as (Hr & Hs & Hl & He).
  unfold Imp.bind. destruct (c1 m) as [r m1]. cbn in *. subst r.
  destruct (H2 m1) as (Hr2 & Hs2 & Hl2 & He2). split_and!; congruence.
Qed.

Lemma keeps_style_MapRoute_listeners layerId onClick onMouseEnter onMouseLeave :
  keeps_style (MapRoute_listeners layerId onClick onMouseEnter onMouseLeave).
Proof.
  unfold MapRoute_listeners.
  repeat first [apply keeps_style_on | apply keeps_style_when | apply keeps_style_seq].
Qed.

Lemma keeps_style_MapClusterLayer_listeners onPointClick onClusterClick :
  keeps_style (MapClusterLayer_listeners onPointClick onClusterClick).
Proof.
  unfold MapClusterLayer_listeners.
  repeat first [apply keeps_style_on | apply keeps_style_when | apply keeps_style_seq].
Qed.

(** On a consistent map, a source id that is free has no layer on it. *)
Lemma free_source_not_in_use id m S L ls es cs :
  consistent m → sources m !! id = None → L ⊆ layers m →
  in_use id (Engine S L ls es cs) = false.
Proof.
  intros Hc Hfree Hsub. unfold in_use. cbn [layers]. apply bool_decide_eq_false.
  intros (i & l & Hl & Hsrc).
  pose proof (lookup_weaken _ _ _ _ Hl Hsub) as Hl'.
  destruct (Hc i l Hl') as [x Hx]. cbn in Hx. congruence.
Qed.

(** A MapRoute mounted on free ids adds its source and its layer. *)
Lemma MapRoute_effect_fresh context id interactive onClick onMouseEnter onMouseLeave m :
  not_ready context = false →
  sources m !! route_sourceId id = None →
  layers m !! route_layerId id = None →
  ∃ m', MapRoute_effect context id interactive onClick onMouseEnter onMouseLeave m
          = (Normal true, m') ∧
        sources m' = <[route_sourceId id := Source "geojson" false]> (sources m) ∧
        layers m' = <[route_layerId id := Layer "line" (route_sourceId id)]> (layers m) ∧
        errors m' = errors m.
Proof.
  intros Hready Hs Hl. unfold MapRoute_effect. rewrite Hready.
  engine_step add_source_if_absent_fresh.
  engine_step add_layer_if_absent_fresh.
  match goal with |- context [Imp.bind ?c _ ?m2] =>
    destruct (keeps_style_when (default true interactive) _
                (keeps_style_MapRoute_listeners (route_layerId id)
                   onClick onMouseEnter onMouseLeave) m2) as (Hr & Hs3 & Hl3 & He3);
    unfold Imp.bind; destruct (c m2) as [r m3]
  end.
  cbn in Hr, Hs3, Hl3, He3. subst r. by exists m3.
Qed.

(** Its cleanup then takes exactly those away. *)
Lemma MapRoute_mount_unmount context id interactive onClick onMouseEnter onMouseLeave m :
  not_ready context = false →
  consistent m →
  sources m !! route_sourceId id = None →
  layers m !! route_layerId id = None →
  let mounted := MapRoute_effect context id interactive onClick onMouseEnter onMouseLeave m in
  let after := (MapRoute_cleanup id mounted.2).2 in
  mounted.1 = Normal true ∧
  sources mounted.2 = <[route_sourceId id := Source "geojson" false]> (sources m) ∧
  layers mounted.2 = <[route_layerId id := Layer "line" (route_sourceId id)]> (layers m) ∧
  sources after = sources m ∧ layers after = layers m ∧ errors after = errors m.
Proof.
  intros Hready Hc Hs Hl mounted after. subst after mounted.
  destruct (MapRoute_effect_fresh context id interactive onClick onMouseEnter onMouseLeave
              m Hready Hs Hl) as (m' & -> & Hs' & Hl' & He').
  cbn [fst snd]. split_and!; [done..| | |];
    rewrite MapRoute_cleanup_run; cbn [fst snd sources layers errors];
    rewrite ?Hs', ?Hl', ?He';
    rewrite ?lookup_insert_eq, ?delete_insert_id by done;
    rewrite ?(free_source_not_in_use _ m) by done;
    rewrite ?bool_decide_eq_true_2 by (by eexists); cbn.
  - done.
  - done.
  - by rewrite app_nil_r.
Qed.

(** The same for a MapClusterLayer and its source and three layers. *)
Lemma MapClusterLayer_effect_fresh context onPointClick onClusterClick m :
  not_ready context = false →
  sources m !! cluster_sourceId = None →
  layers m !! clusterLayerId = None →
  layers m !! clusterCountLayerId = None →
  layers m !! pointLayerId = None →
  ∃ m', MapClusterLayer_effect context onPointClick onClusterClick m = (Normal true, m') ∧
        sources m' = <[cluster_sourceId := Source "geojson" true]> (sources m) ∧
        layers m'
          = <[pointLayerId := Layer "circle" cluster_sourceId]>
            (<[clusterCountLayerId := Layer "symbol" cluster_sourceId]>
            (<[clusterLayerId := Layer "circle" cluster_sourceId]> (layers m))) ∧
        errors m' = errors m.
Proof.
  intros Hready Hs Hl1 Hl2 Hl3.
  destruct cluster_layers_distinct as (Hpc & Hpl & Hcl).
  unfold MapClusterLayer_effect. rewrite Hready.
  engine_step addSource_fresh.
  engine_step addLayer_fresh.
  engine_step addLayer_fresh.
  engine_step addLayer_fresh.
  match goal with |- context [Imp.bind ?c _ ?m2] =>
    destruct (keeps_style_MapClusterLayer_listeners onPointClick onClusterClick m2)
      as (Hr & Hs3 & Hl3' & He3);
    unfold Imp.bind; destruct (c m2) as [r m3]
  end.
  cbn in Hr, Hs3, Hl3', He3. subst r. by exists m3.
Qed.

Lemma MapClusterLayer_mount_unmount context onPointClick onClusterClick m :
  not_ready context = false →
  consistent m →
  sources m !! cluster_sourceId = None →
  layers m !! clusterLayerId = None →
  layers m !! clusterCountLayerId = None →
  layers m !! pointLayerId = None →
  let mounted := MapClusterLayer_effect context onPointClick onClusterClick m in
  let after := (MapClusterLayer_cleanup mounted.2).2 in
  mounted.1 = Normal true ∧
  sources mounted.2 = <[cluster_sourceId := Source "geojson" true]> (sources m) ∧
  layers mounted.2
    = <[pointLayerId := Layer "circle" cluster_sourceId]>
      (<[clusterCountLayerId := Layer "symbol" cluster_sourceId]>
      (<[clusterLayerId := Layer "circle" cluster_sourceId]> (layers m))) ∧
  sources after = sources m ∧ layers after = layers m ∧ errors after = errors m.
Proof.
  intros Hready Hc Hs Hl1 Hl2 Hl3 mounted after. subst after mounted.
  destruct cluster_layers_distinct as (Hpc & Hpl & Hcl).
  destruct (MapClusterLayer_effect_fresh context onPointClick onClusterClick
              m Hready Hs Hl1 Hl2 Hl3) as (m' & -> & Hs' & Hl' & He').
  assert (Hback :
    delete clusterLayerId (delete clusterCountLayerId (delete pointLayerId (layers m')))
    = layers m).
  { rewrite Hl'.
    rewrite delete_insert_id by (by rewrite !lookup_insert_ne).
    rewrite delete_insert_id by (by rewrite lookup_insert_ne).
    by rewrite delete_insert_id. }
  cbn [fst snd]. split_and!; [done..| | |];
    rewrite MapClusterLayer_cleanup_run; cbn [fst snd sources layers errors];
    rewrite ?Hback, ?Hs', ?He';
    rewrite ?lookup_insert_eq;
    rewrite ?(free_source_not_in_use _ m) by done;
    rewrite ?bool_decide_eq_true_2 by (by eexists); cbn.
  - by rewrite delete_insert_id.
  - done.
  - by rewrite app_nil_r.
Qed.

(** On a live map, the cleanup of a MapRoute and of a MapClusterLayer does
    not throw, whatever sources and layers the map holds: it goes through
    the component's layer ids and then its source id, looks each one up
    and removes it only when the lookup found it.  It removes by id: on a
    map where those ids were free when the component mounted, the cleanup
    removes exactly the source and layers the component added and leaves
    the map's sources and layers as they were before. *)
Lemma teardown_by_id_on_a_live_map :
  (∀ id m,
     (MapRoute_cleanup id m).1 = Normal tt ∧
     calls_since m (MapRoute_cleanup id m).2
       = checked_removals m [route_layerId id] (route_sourceId id)) ∧
  (∀ m,
     (MapClusterLayer_cleanup m).1 = Normal tt ∧
     calls_since m (MapClusterLayer_cleanup m).2
       = checked_removals m [pointLayerId; clusterCountLayerId; clusterLayerId]
           cluster_sourceId) ∧
  (∀ context id interactive onClick onMouseEnter onMouseLeave m,
     not_ready context = false → consistent m →
     sources m !! route_sourceId id = None →
     layers m !! route_layerId id = None →
     let mounted := MapRoute_effect context id interactive onClick onMouseEnter onMouseLeave m in
     let after := (MapRoute_cleanup id mounted.2).2 in
     mounted.1 = Normal true ∧
     sources mounted.2 = <[route_sourceId id := Source "geojson" false]> (sources m) ∧
     layers mounted.2 = <[route_layerId id := Layer "line" (route_sourceId id)]> (layers m) ∧
     sources after = sources m ∧ layers after = layers m ∧ errors after = errors m) ∧
  (∀ context onPointClick onClusterClick m,
     not_ready context = false → consistent m →
     sources m !! cluster_sourceId = None →
     layers m !! clusterLayerId = None →
     layers m !! clusterCountLayerId = None →
     layers m !! pointLayerId = None →
     let mounted := MapClusterLayer_effect context onPointClick onClusterClick m in
     let after := (MapClusterLayer_cleanup mounted.2).2 in
     mounted.1 = Normal true ∧
     sources mounted.2 = <[cluster_sourceId := Source "geojson" true]> (sources m) ∧
     layers mounted.2
       = <[pointLayerId := Layer "circle" cluster_sourceId]>
         (<[clusterCountLayerId := Layer "symbol" cluster_sourceId]>
         (<[clusterLayerId := Layer "circle" cluster_sourceId]> (layers m))) ∧
     sources after = sources m ∧ layers after = layers m ∧ errors after = errors m).
Proof.
  split_and!.
  - intros id m. rewrite MapRoute_cleanup_run. split; [done|].
    unfold calls_since. cbn [snd calls]. apply drop_app_length.
  - intros m. rewrite MapClusterLayer_cleanup_run. split; [done|].
    unfold calls_since. cbn [snd calls]. apply drop_app_length.
  - apply MapRoute_mount_unmount.
  - apply MapClusterLayer_mount_unmount.
Qed.

End TeardownFacts.

(** The cleanup removes by id, whoever added the entry.  On a map that
    already holds the source and the layer of route "a" (a sibling
    MapRoute with the same id put them there), a second MapRoute "a" adds
    nothing when it mounts, and its cleanup removes both. *)
Lemma cleanup_removes_what_it_did_not_add :
  let context := {| MapWidget.map := Some 0%nat; MapWidget.isLoaded := true |} in
  let m := MapLibre.Engine {[ "route-a" := MapLibre.Source "geojson" false ]}
                           {[ "route-layer-a" := MapLibre.Layer "line" "route-a" ]}
                           [] [] [] in
  let mounted := (MapWidget.MapRoute_effect context "a" None None None None m).2 in
  let after := (MapWidget.MapRoute_cleanup "a" mounted).2 in
  MapLibre.sources mounted = MapLibre.sources m ∧
  MapLibre.layers mounted = MapLibre.layers m ∧
  MapLibre.sources after = ∅ ∧
  MapLibre.layers after = ∅.
Proof. split_and!; by vm_compute. Qed.

(** ** MapRoute and MapClusterLayer: unmounting with the map *)

Section UnmountFacts.
Import Js Imp MapLibre MapWidget MapUnmount.

(** Running code on the map object call by call is running it as a whole:
    a removed map stops it at its first call, a live map stays live. *)
Lemma on_map_bind {A B} (c : M engine A) (k : A → M engine B) o :
  on_map (x ←! c; k x) o = (x ←! on_map c; on_map (k x)) o.
Proof.
  destruct o as [m|]; [|done]. unfold on_map, Imp.bind.
  destruct (c m) as [[a|t] m']; [|done]. by destruct (k a m').
Qed.

Lemma on_map_live {A} (c : M engine A) m : on_map c (Live m) = ((c m).1, Live (c m).2).
Proof. unfold on_map. by destruct (c m). Qed.

Lemma on_map_removed {A} (c : M engine A) : on_map c Removed = (Throw style_is_gone, Removed).
Proof. done. Qed.

(** C6.  The claim fails where a Map is unmounted together with a MapRoute
    or a MapClusterLayer in it.  The cleanup of Map removes the map first;
    the cleanup of the child then calls [map.getLayer] on the removed map,
    and that call throws: the teardown throws, and nothing is looked up or
    removed by the child.  Unmounted alone, on the live map, the same
    cleanups do not throw. *)
Theorem C6_cleanup_after_map_remove_throws :
  (∀ id m, unmount_Map_with_MapRoute id (Live m) = (Throw style_is_gone, Removed)) ∧
  (∀ m, unmount_Map_with_MapClusterLayer (Live m) = (Throw style_is_gone, Removed)) ∧
  (∀ id m, throws (unmount_Map_with_MapRoute id (Live m)).1 = true) ∧
  (∀ m, throws (unmount_Map_with_MapClusterLayer (Live m)).1 = true) ∧
  (∀ id m, (unmount_MapRoute id (Live m)).1 = Normal tt) ∧
  (∀ m, (unmount_MapClusterLayer (Live m)).1 = Normal tt).
Proof.
  split_and!; try done.
  - intros id m. unfold unmount_MapRoute. by rewrite on_map_live, MapRoute_cleanup_run.
  - intros m. unfold unmount_MapClusterLayer. by rewrite on_map_live, MapClusterLayer_cleanup_run.
Qed.

End UnmountFacts.

(* ===================================================================== *)
(** * Part III: further properties of the components                      *)
(* ===================================================================== *)

(** ** Stepper: what clicks can and cannot do *)

Section StepperSessionFacts.
Import Js Jsx Stepper StepperSession.
Variable cn : list value → string.

(** X2.  A click on an item that is not disabled, at or below the active
    step and without an [onClick] of the caller, makes the item's value the
    active step and reports it once through [onChange] (if there is one).
    Rendered again, that item is marked active, and an item without
    [disabled] prop is marked completed exactly when its value is below,
    and disabled exactly when its value is above. *)
Theorem X2_click_selects (it other : item) s :
  item_props it !! "onClick" = None →
  item_disabled it ≠ Some true →
  item_value it ≤ state_activeStep s →
  item_props it !! "data-active" = None →
  item_props other !! "data-completed" = None →
  item_props other !! "data-disabled" = None →
  item_disabled other = None →
  let r := click (render cn it s) s in
  state_activeStep r.1 = item_value it ∧
  reported r.2 = match onChange s with Some _ => [item_value it] | None => [] end ∧
  marked "data-active" (render cn it r.1) ∧
  (marked "data-completed" (render cn other r.1) ↔ item_value other < item_value it) ∧
  (marked "data-disabled" (render cn other r.1) ↔ item_value it < item_value other).
Proof.
  intros Hclick Hdis Hle Ha Hc Hd Hnone r. subst r. unfold render.
  rewrite click_own by done. rewrite isDisabled_bool. cbn.
  rewrite bool_decide_eq_false_2 by (intros [?|?]; [done|lia]). cbn.
  split_and!.
  - done.
  - by destruct (onChange s).
  - rewrite (marked_bool _ _ (isActive (provided
        {| state_activeStep := item_value it; onChange := onChange s |}) (item_value it))).
    + unfold isActive. by apply bool_decide_eq_true.
    + by rewrite StepperItem_written.
  - rewrite (marked_bool _ _ (isCompleted (provided
        {| state_activeStep := item_value it; onChange := onChange s |}) (item_value other))).
    + unfold isCompleted. rewrite bool_decide_eq_true. cbn. lia.
    + by rewrite StepperItem_written.
  - rewrite (marked_bool _ _ (bool_decide (item_disabled other = Some true ∨
        activeStep (provided {| state_activeStep := item_value it; onChange := onChange s |})
          < item_value other))).
    + rewrite bool_decide_eq_true, Hnone. cbn. split; [by intros [?|?]|by right].
    + rewrite StepperItem_written by done. unfold StepperItem_attributes.
      simplify_map_eq. by rewrite isDisabled_bool.
Qed.

End StepperSessionFacts.

Lemma X2_click_selects_witness :
  let s := Stepper.mount (Some 2) (Some "onStep") in
  let first := StepperSession.Item Js.VUndefined 0 None ∅ in
  let second := StepperSession.Item Js.VUndefined 1 None ∅ in
  let r := Stepper.click (StepperSession.render Js.clsx first s) s in
  Stepper.state_activeStep r.1 = 0 ∧
  (Stepper.marked "data-disabled" (StepperSession.render Js.clsx second r.1) ↔ 0 < 1).
Proof.
  pose proof (X2_click_selects Js.clsx
    (StepperSession.Item Js.VUndefined 0 None ∅) (StepperSession.Item Js.VUndefined 1 None ∅)
    (Stepper.mount (Some 2) (Some "onStep"))
    eq_refl ltac:(discriminate) ltac:(discriminate) eq_refl eq_refl eq_refl eq_refl)
    as (H1 & _ & _ & _ & H5).
  split; [exact H1 | exact H5].
Defined.

(** ** Stepper: sessions and marks over JavaScript numbers *)

Section StepperNumbersMoreFacts.
Import Js Jsx StepperNumbers.
Variable cn : list value → string.
Variable caller : caller_code.



(** The three marks of an item without overriding attributes, as the
    comparisons of the active step with the item's value. *)
Lemma number_item_marks ctx className value disabled props :
  props !! "data-active" = None →
  props !! "data-completed" = None →
  props !! "data-disabled" = None →
  let it := StepperItem cn ctx className value disabled tt props in
  (marked "data-active" it ↔ strict_equal (activeStep ctx) value = true) ∧
  (marked "data-completed" it ↔ greater (activeStep ctx) value = true) ∧
  (marked "data-disabled" it ↔ disabled = Some true ∨ less (activeStep ctx) value = true).
Proof.
  intros Ha Hc Hd it. subst it. split_and!.
  - rewrite (marked_number _ _ (isActive ctx value)); [done | by rewrite item_written].
  - rewrite (marked_number _ _ (isCompleted ctx value)); [done | by rewrite item_written].
  - rewrite (marked_number _ _
               (bool_decide (disabled = Some true ∨ less (activeStep ctx) value = true)));
      [apply bool_decide_eq_true |].
    rewrite item_written by done. unfold StepperItem_attributes.
    simplify_map_eq. by rewrite isDisabled_number.
Qed.

(** X3.  An item without overriding [data-*] attributes is never marked
    both active and completed; an item ahead of the active step is marked
    disabled and neither active nor completed.  Take an item whose
    [disabled] prop is not true: when neither its value nor the active
    step is [NaN] it carries exactly one of the three marks, and when one
    of the two is [NaN] it carries none. *)
Theorem X3_marks_exclude_each_other ctx className value disabled props :
  props !! "data-active" = None →
  props !! "data-completed" = None →
  props !! "data-disabled" = None →
  let it := StepperItem cn ctx className value disabled tt props in
  ¬ (marked "data-active" it ∧ marked "data-completed" it) ∧
  (less (activeStep ctx) value = true →
     marked "data-disabled" it ∧ ¬ marked "data-active" it ∧ ¬ marked "data-completed" it) ∧
  (disabled ≠ Some true → activeStep ctx ≠ NaN → value ≠ NaN →
     (marked "data-active" it ∧ ¬ marked "data-completed" it ∧ ¬ marked "data-disabled" it) ∨
     (¬ marked "data-active" it ∧ marked "data-completed" it ∧ ¬ marked "data-disabled" it) ∨
     (¬ marked "data-active" it ∧ ¬ marked "data-completed" it ∧ marked "data-disabled" it)) ∧
  (disabled ≠ Some true → activeStep ctx = NaN ∨ value = NaN →
     ¬ marked "data-active" it ∧ ¬ marked "data-completed" it ∧ ¬ marked "data-disabled" it).
Proof.
  intros Ha Hc Hd it.
  destruct (number_item_marks ctx className value disabled props Ha Hc Hd) as (Hact & Hcom & Hdis).
  fold it in Hact, Hcom, Hdis. rewrite Hact, Hcom, Hdis. clear Hact Hcom Hdis.
  destruct (activeStep ctx) as [|a], value as [|v]; cbn [strict_equal greater less].
  - split_and!; [by intros [? _] | done | done | ].
    intros Hnot _. split_and!; [done | done | by intros [?|?]].
  - split_and!; [by intros [? _] | done | done | ].
    intros Hnot _. split_and!; [done | done | by intros [?|?]].
  - split_and!; [by intros [? _] | done | done | ].
    intros Hnot _. split_and!; [done | done | by intros [?|?]].
  - rewrite !bool_decide_eq_true. split_and!.
    + lia.
    + intros Hlt. split_and!; [by right | lia | lia].
    + intros Hnot _ _.
      destruct (Z.lt_trichotomy a v) as [Hlt|[Heq|Hgt]].
      * right. right. split_and!; [lia | lia | by right].
      * left. split_and!; [done | lia | intros [?|?]; [done|lia]].
      * right. left. split_and!; [lia | lia | intros [?|?]; [done|lia]].
    + by intros _ [?|?].
Qed.


End StepperNumbersMoreFacts.


Lemma X3_marks_exclude_each_other_witness :
  let it := StepperNumbers.StepperItem Js.clsx
              (StepperNumbers.provided (StepperNumbers.mount (Some (StepperNumbers.Num 1)) None))
              Js.VUndefined StepperNumbers.NaN None tt ∅ in
  ¬ StepperNumbers.marked "data-active" it ∧ ¬ StepperNumbers.marked "data-completed" it ∧
  ¬ StepperNumbers.marked "data-disabled" it.
Proof.
  pose proof (X3_marks_exclude_each_other Js.clsx
                (StepperNumbers.provided (StepperNumbers.mount (Some (StepperNumbers.Num 1)) None))
                Js.VUndefined StepperNumbers.NaN None ∅ eq_refl eq_refl eq_refl)
    as (_ & _ & _ & H).
  apply H; [discriminate | right; reflexivity].
Defined.


(** ** ButtonGroup: what the group leaves alone *)

Section ButtonGroupMoreFacts.
Import Js Jsx ButtonGroup ChildOutline.
Variable cn : list value → string.
Context {C : Type}.

(** X5.  The group changes nothing of an element child but its
    [className]: the clone has the child's type, its children and every
    other prop, and its [className] is [cn] of the child's own class
    followed by the positional classes. *)
Theorem X5_clone_keeps_child pill (children : list (@node C)) (e : element Empty_set C) index :
  ∃ e', renderChild cn pill children (NElement e) index = NElement e' ∧
        etype e' = etype e ∧
        echildren e' = echildren e ∧
        (∀ k, k ≠ "className" → eprops e' !! k = eprops e !! k) ∧
        eprops e' !! "className"
          = Some (AVal (VStr (cn (className_of e
                                  :: positional_classes pill (Children_count children) index)))).
Proof.
  eexists. split; [reflexivity|]. cbn. split_and!; [done|done| |].
  - intros k Hk. rewrite lookup_union_r; [done|]. by rewrite lookup_singleton_ne.
  - apply lookup_union_Some_l. by rewrite lookup_singleton_eq.
Qed.

Lemma outline_renderChild pill (children : list (@node C)) child index :
  outline_of (renderChild cn pill children child index) = outline_of child.
Proof. by destruct child. Qed.

Lemma isNull_outline (child : @node C) : isNull child = false ↔ is_Some (outline_of child).
Proof. destruct child; cbn; split; (done || by eexists || by intros [? [=]]). Qed.

Lemma outline_filter_imap (g : nat → @node C → @node C) (l : list (@node C)) :
  (∀ i c, outline_of (g i c) = outline_of c) →
  omap outline_of (filter (λ r, isNull r = false) (imap g l)) = omap outline_of l.
Proof.
  revert g. induction l as [|c l IH]; intros g Hg; [done|].
  assert (Hg' : ∀ i c, outline_of ((g ∘ S) i c) = outline_of c) by (intros; apply Hg).
  specialize (IH _ Hg'). unfold omap in *.
  rewrite imap_cons, filter_cons.
  case_decide as Hn.
  - cbn [list_omap]. rewrite Hg. destruct (outline_of c); by rewrite IH.
  - assert (outline_of c = None) as Hc.
    { destruct (outline_of c) eqn:E; [|done]. exfalso. apply Hn.
      apply isNull_outline. rewrite Hg, E. by eexists. }
    cbn [list_omap]. by rewrite Hc.
Qed.

(** X6.  The rendered children of a ButtonGroup are the given children in
    the same order with the empty nodes left out: texts and numbers as they
    were, elements with their types; no empty node is rendered, so the
    group renders as many children as there are non-empty nodes. *)
Theorem X6_children_in_order className v sz fullWidth pill (children : list (@node C)) props :
  let rendered := echildren (ButtonGroup cn className v sz fullWidth pill children props) in
  omap outline_of rendered = omap outline_of children ∧
  Forall (λ r, isNull r = false) rendered ∧
  length rendered = length (filter (λ c, isNull c = false) children).
Proof.
  intros rendered. subst rendered. cbn [echildren ButtonGroup]. unfold Children_map.
  assert (Hout : omap outline_of
            (filter (λ r, isNull r = false)
               (imap (λ i child, renderChild cn pill children child (Z.of_nat i)) children))
          = omap outline_of children).
  { apply outline_filter_imap. intros i c. apply outline_renderChild. }
  split_and!.
  - done.
  - apply Forall_forall. intros r Hr. by apply list_elem_of_filter in Hr as [? _].
  - assert (Hlen : ∀ l : list (@node C),
              Forall (λ r, isNull r = false) l → length (omap outline_of l) = length l).
    { induction 1 as [|r l Hr _ IH]; [done|]. cbn.
      apply isNull_outline in Hr as [o ->]. cbn. by rewrite IH. }
    rewrite <- (Hlen (filter _ (imap _ children))), Hout.
    + rewrite <- (Hlen (filter (λ c, isNull c = false) children)).
      * f_equal. clear. induction children as [|c l IH]; [done|].
        rewrite filter_cons. case_decide as Hn; cbn.
        -- apply isNull_outline in Hn as [o Ho]. rewrite Ho. cbn. by rewrite IH.
        -- destruct (outline_of c) eqn:E; [|done]. exfalso. apply Hn.
           apply isNull_outline. by eexists.
      * apply Forall_forall. intros r Hr. by apply list_elem_of_filter in Hr as [? _].
    + apply Forall_forall. intros r Hr. by apply list_elem_of_filter in Hr as [? _].
Qed.

Lemma positional_class_iff pill count index :
  let names := class_names (positional_classes pill count index) in
  ("rounded-l-md" ∈ names ↔ index = 0) ∧
  ("rounded-r-md" ∈ names ↔ index = count - 1) ∧
  ("rounded-none" ∈ names ↔ index ≠ 0 ∧ index ≠ count - 1) ∧
  ("rounded-l-full" ∈ names ↔ truthy pill = true ∧ index = 0) ∧
  ("rounded-r-full" ∈ names ↔ truthy pill = true ∧ index = count - 1) ∧
  ("border-l-0" ∈ names ↔ index ≠ 0).
Proof.
  intros names. subst names. rewrite !elem_of_positional_classes.
  split_and!; (split; [intros H; repeat destruct H as [H|H]; by destruct H | tauto]).
Qed.

(** X7.  The positional classes of one child never clash: [rounded-none]
    comes with no side-rounding class, a full-rounding class only together
    with the plain rounding class of its side, and [border-l-0] exactly
    when the left-rounding class is absent; at every index at least one
    rounding class is handed. *)
Theorem X7_positional_classes_agree pill count index :
  let names := class_names (positional_classes pill count index) in
  ("rounded-none" ∈ names →
     ("rounded-l-md" ∉ names) ∧ ("rounded-r-md" ∉ names) ∧
     ("rounded-l-full" ∉ names) ∧ ("rounded-r-full" ∉ names)) ∧
  ("rounded-l-full" ∈ names → "rounded-l-md" ∈ names) ∧
  ("rounded-r-full" ∈ names → "rounded-r-md" ∈ names) ∧
  ("border-l-0" ∈ names ↔ ("rounded-l-md" ∉ names)) ∧
  ("rounded-l-md" ∈ names ∨ "rounded-r-md" ∈ names ∨ "rounded-none" ∈ names).
Proof.
  intros names.
  destruct (positional_class_iff pill count index) as (Hl & Hr & Hn & Hlf & Hrf & Hb).
  fold names in Hl, Hr, Hn, Hlf, Hrf, Hb.
  rewrite Hl, Hr, Hn, Hlf, Hrf, Hb.
  split_and!; try tauto. lia.
Qed.

End ButtonGroupMoreFacts.

(** ** ListItem, Toaster, Collapse and Spinner: what passes through *)

Section PassThroughFacts.
Import Js Jsx.
Variable cn : list value → string.

(** X8.  A ListItem that is passed no [data-disabled] of its own carries
    [data-disabled="true"] and the classes [pointer-events-none] and
    [opacity-50] when [disabled] is true; otherwise it carries
    [data-disabled="false"] and the component adds neither class.  The
    selected classes are still handed to a disabled item that is
    selected. *)
Theorem X8_disabled_state {C} className asChild selected disabled (children : C) props :
  props !! "data-disabled" = None →
  let item := ListView.ListItem cn className asChild selected disabled children props in
  let classes := ListView.ListItem_classes className (default false selected)
                   (default false disabled) in
  (disabled = Some true →
     data_attribute (eprops item !! "data-disabled") = Some "true" ∧
     "pointer-events-none" ∈ class_names classes ∧ "opacity-50" ∈ class_names classes ∧
     (selected = Some true → "bg-accent" ∈ class_names classes)) ∧
  (disabled = Some false ∨ disabled = None →
     data_attribute (eprops item !! "data-disabled") = Some "false" ∧
     ∀ x, x = "pointer-events-none" ∨ x = "opacity-50" →
          x ∈ class_names classes → x ∈ class_names [className]).
Proof.
  intros Hk item classes. subst item classes. split.
  - intros ->. rewrite ListItem_written by done. split; [done|].
    rewrite ListItem_class_names. cbn [default].
    split_and!.
    + do 2 (apply elem_of_app; right). apply elem_of_app; left.
      by apply (bool_decide_unpack _).
    + do 2 (apply elem_of_app; right). apply elem_of_app; left.
      by apply (bool_decide_unpack _).
    + intros ->. cbn [default]. apply elem_of_app; right. apply elem_of_app; left.
      by apply (bool_decide_unpack _).
  - intros Hdis. rewrite ListItem_written by done.
    assert (default false disabled = false) as -> by (by destruct Hdis as [-> | ->]).
    split; [done|]. intros x Hx. rewrite ListItem_class_names.
    rewrite !elem_of_app. intros [Hbase|[Hsel|[Hd|Hcls]]]; [| | |done].
    + exfalso. revert Hbase. destruct Hx as [-> | ->]; by apply (bool_decide_unpack _).
    + exfalso. revert Hsel.
      destruct (default false selected), Hx as [-> | ->]; by apply (bool_decide_unpack _).
    + by apply elem_of_nil in Hd.
Qed.

(** X9.  Every prop a caller passes to Toaster reaches the toast engine
    unchanged, [className] included: a caller's [className] replaces the
    Toaster's own class instead of being merged with it.  A key the caller
    does not pass keeps what Toaster writes, so without a caller's [style]
    the four CSS variables are passed. *)
Theorem X9_Toaster_passes_props_through useTheme_theme props :
  let toaster := Sonner.Toaster cn useTheme_theme props in
  (∀ k a, props !! k = Some a → eprops toaster !! k = Some a) ∧
  (∀ k, props !! k = None →
        eprops toaster !! k = Sonner.Toaster_attributes cn useTheme_theme !! k) ∧
  (props !! "style" = None →
     ∃ variables, eprops toaster !! "style" = Some (AOwn (Sonner.Style variables)) ∧
       ∀ v, v ∈ ["--normal-bg"; "--normal-text"; "--normal-border"; "--border-radius"] →
            is_Some (variables !! v)).
Proof.
  intros toaster. subst toaster. unfold Sonner.Toaster. cbn [eprops]. split_and!.
  - intros k a H. by apply spread_lookup_rest.
  - intros k H. by apply spread_lookup_written.
  - intros H. exists Sonner.Toaster_style. split.
    + rewrite spread_lookup_written by done. unfold Sonner.Toaster_attributes.
      by simplify_map_eq.
    + intros v Hv. rewrite !elem_of_cons, elem_of_nil in Hv.
      destruct Hv as [->|[->|[->|[->|[]]]]]; by eexists.
Qed.

(** X10.  Collapse and CollapseContent are transparent wrappers.  The
    collapsible root receives every prop of the caller as the caller gave
    it, [open] and [onOpenChange] included, and the children.  The content
    receives every prop but [className] as given, and its [className] is
    [cn] of the animation classes followed by the caller's class, which no
    other prop can replace. *)
Theorem X10_Collapse_forwards {C} props (children : C) :
  let root := CollapseView.Collapse props children in
  let content := CollapseView.CollapseContent cn props in
  (∀ k, k ≠ "children" →
        CollapseView.read (eprops root) k = CollapseView.read props k) ∧
  echildren root = children ∧
  (∀ k, k ≠ "className" → eprops content !! k = props !! k) ∧
  eprops content !! "className"
    = Some (AVal (VStr (cn (CollapseView.CollapseContent_classes
                              (CollapseView.read props "className"))))) ∧
  "overflow-hidden"
    ∈ class_names (CollapseView.CollapseContent_classes (CollapseView.read props "className")).
Proof.
  intros root content. subst root content.
  unfold CollapseView.Collapse, CollapseView.CollapseContent. cbn [eprops echildren].
  split_and!.
  - intros k Hk. unfold CollapseView.read at 1.
    destruct (decide (k = "open")) as [->|Hopen].
    { rewrite spread_lookup_written by (apply omit_lookup_named; by apply (bool_decide_unpack _)).
      by simplify_map_eq. }
    destruct (decide (k = "onOpenChange")) as [->|Hchg].
    { rewrite spread_lookup_written by (apply omit_lookup_named; by apply (bool_decide_unpack _)).
      by simplify_map_eq. }
    assert (Hother : omit ["open"; "onOpenChange"; "children"] props !! k = props !! k).
    { apply omit_lookup_other. rewrite !elem_of_cons, elem_of_nil. tauto. }
    unfold CollapseView.read. destruct (props !! k) as [a|] eqn:E.
    + by rewrite (spread_lookup_rest _ _ _ a).
    + rewrite spread_lookup_written by done. by simplify_map_eq.
  - done.
  - intros k Hk.
    assert (Hother : omit ["className"] props !! k = props !! k).
    { apply omit_lookup_other. rewrite elem_of_cons, elem_of_nil. tauto. }
    destruct (props !! k) as [a|] eqn:E.
    + by rewrite (spread_lookup_rest _ _ _ a).
    + rewrite spread_lookup_written by done. by rewrite lookup_singleton_ne.
  - rewrite spread_lookup_written by (apply omit_lookup_named; by apply (bool_decide_unpack _)).
    by rewrite lookup_singleton_eq.
  - unfold CollapseView.CollapseContent_classes. rewrite class_names_cons.
    apply elem_of_app. left. by apply (bool_decide_unpack _).
Qed.

(** X11.  A Spinner always spins and takes its dimensions from its size:
    [animate-spin] is among its variant classes for every size; leaving the
    size out gives the classes of [md]; two different sizes never give the
    same classes; and its [role] is "status" unless the caller passes a
    role, its child always the hidden "Loading..." label. *)
Theorem X11_Spinner_sizes className size props :
  let spinner := SpinnerView.Spinner cn className size props in
  "animate-spin" ∈ class_names (SpinnerView.spinnerVariants_classes size) ∧
  SpinnerView.spinnerVariants SpinnerView.SizeAbsent
    = SpinnerView.spinnerVariants (SpinnerView.SizeOf SpinnerView.Md) ∧
  (∀ s1 s2, SpinnerView.spinnerVariants (SpinnerView.SizeOf s1)
            = SpinnerView.spinnerVariants (SpinnerView.SizeOf s2) → s1 = s2) ∧
  (props !! "role" = None → eprops spinner !! "role" = Some (AVal (VStr "status"))) ∧
  echildren spinner = SpinnerView.label.
Proof.
  intros spinner. subst spinner. split_and!.
  - unfold SpinnerView.spinnerVariants_classes. rewrite class_names_cons.
    apply elem_of_app. left. by apply (bool_decide_unpack _).
  - unfold SpinnerView.spinnerVariants, SpinnerView.spinnerVariants_classes. reflexivity.
  - intros [] []; by vm_compute.
  - intros H. unfold SpinnerView.Spinner. cbn [eprops].
    rewrite spread_lookup_written.
    + by simplify_map_eq.
    + by rewrite omit_lookup_other by (by apply (bool_decide_unpack _)).
  - done.
Qed.

End PassThroughFacts.

Lemma X8_disabled_state_witness :
  let item := ListView.ListItem Js.clsx Js.VUndefined None None (Some true) tt ∅ in
  Jsx.data_attribute (Jsx.eprops item !! "data-disabled") = Some "true".
Proof.
  pose proof (X8_disabled_state Js.clsx Js.VUndefined None None (Some true) tt ∅ eq_refl)
    as (Hdis & _).
  exact (proj1 (Hdis eq_refl)).
Defined.

(** ** Map: style, render and remount *)

Section MapThemeFacts.
Import Js Jsx MapWidget MapTheme.
Variable remove : handle → completion unit.

Lemma style_or_spec own fallback :
  style_truthy (StyleUrl fallback) = true →
  style_truthy (style_or own fallback) = true ∧
  (∀ v, own = Some v → style_truthy v = true → style_or own fallback = v) ∧
  ((own = None ∨ ∃ v, own = Some v ∧ style_truthy v = false) →
     style_or own fallback = StyleUrl fallback).
Proof.
  intros Hf. unfold style_or. destruct own as [v|]; [destruct (style_truthy v) eqn:E|].
  - split_and!; [done | by intros ? [= ->] | ].
    intros [?|(v' & [= <-] & ?)]; congruence.
  - split_and!; [done | intros ? [= <-]; congruence | done].
  - split_and!; [done | by intros ? [=] | done].
Qed.

(** X12.  The style handed to the engine is never empty: it is the
    caller's style for the detected theme when that is given and truthy,
    and the default style of that theme otherwise; the other theme's style
    plays no part, and without a window the theme is light. *)
Theorem X12_style_for_theme has_window dark_class styles :
  let theme := getTheme has_window dark_class in
  let chosen := styleUrl theme styles in
  let own := if String.eqb theme "dark" then styles ≫= dark else styles ≫= light in
  let fallback := if String.eqb theme "dark" then DEFAULT_DARK_STYLE else DEFAULT_LIGHT_STYLE in
  style_truthy chosen = true ∧
  (∀ v, own = Some v → style_truthy v = true → chosen = v) ∧
  ((own = None ∨ ∃ v, own = Some v ∧ style_truthy v = false) → chosen = StyleUrl fallback) ∧
  (has_window = false → theme = "light") ∧
  (theme = "dark" ↔ has_window = true ∧ dark_class = true).
Proof.
  intros theme chosen own fallback. subst chosen own fallback. unfold styleUrl.
  assert (Htheme : (theme = "dark" ∧ has_window = true ∧ dark_class = true) ∨
                   (theme = "light" ∧ ¬ (has_window = true ∧ dark_class = true))).
  { subst theme. unfold getTheme. destruct has_window, dark_class; cbn;
      [left | right | right | right]; split; try done; by intros [? ?]. }
  destruct Htheme as [(-> & Hw & Hd)|(-> & Hnot)].
  - change (String.eqb "dark" "dark") with true. cbn iota.
    destruct (style_or_spec (styles ≫= dark) DEFAULT_DARK_STYLE eq_refl) as (H1 & H2 & H3).
    split_and!; [done|done|done| by rewrite Hw | done].
  - change (String.eqb "light" "dark") with false. cbn iota.
    destruct (style_or_spec (styles ≫= light) DEFAULT_LIGHT_STYLE eq_refl) as (H1 & H2 & H3).
    split_and!; [done|done|done|done|]. split; [done|]. intros H. by destruct Hnot.
Qed.

Lemma more_invariants_step m m' :
  lifecycle_invariant m →
  handles_constructed (component m) ∧ loaded_has_instance (component m) →
  step remove m m' →
  handles_constructed (component m') ∧ loaded_has_instance (component m').
Proof.
  intros [Hone Hheld] [[Hall Hst] Hload] Hstep.
  destruct Hstep as [c s held|s|s|s held h Hh];
    unfold handles_constructed, loaded_has_instance in *;
    cbn [component held_cleanup] in *.
  - done.
  - unfold initEffect.
    destruct (mapContainer s) as [c|], (mapInstance s) as [i|] eqn:E; cbn; rewrite ?E;
      try (split; [split|]; done).
    split; [split|].
    + constructor; [lia|]. eapply Forall_impl; [exact Hall|]. cbn. intros; lia.
    + intros h [= <-]. lia.
    + intros _. by eexists.
  - destruct (Hheld eq_refl) as [i Hi]. rewrite (cleanup_stored _ _ _ Hi). cbn.
    split; [split|]; [|done|done].
    apply Forall_forall. intros h Hh. apply list_elem_of_filter in Hh as [_ Hh].
    by eapply Forall_forall in Hall.
  - split; [done|]. intros _. cbn. rewrite Hone in Hh.
    destruct (mapInstance s); [by eexists|]. by apply elem_of_nil in Hh.
Qed.

Lemma reachable_more_invariants m :
  reachable remove m →
  handles_constructed (component m) ∧ loaded_has_instance (component m).
Proof.
  intros H.
  assert (Hboth : lifecycle_invariant m ∧
            (handles_constructed (component m) ∧ loaded_has_instance (component m))).
  { unfold reachable in H.
    eapply (rtc_ind_r (λ m, lifecycle_invariant m ∧
              (handles_constructed (component m) ∧ loaded_has_instance (component m))));
      [| |exact H].
    - split; [split; [done|by intros [=]]|].
      split; [split; [constructor|done]|done].
    - intros y z _ Hstep [Hinv Hmore]. split.
      + by eapply lifecycle_invariant_step.
      + by eapply more_invariants_step. }
  apply Hboth.
Qed.

(** X13.  Map renders its children only once the engine has loaded, and
    then the context it provides holds the engine: in every state a
    mounted Map can reach in which the children are rendered, the provided
    [map] is not null and the guard [!map || !isLoaded] of the children's
    effects is false. *)
Theorem X13_children_see_a_map {C} m (children : C) :
  reachable remove m →
  let s := component m in
  is_Some (Map_children s children) →
  is_Some (map (Map_provided s)) ∧ isLoaded (Map_provided s) = true ∧
  not_ready (Map_provided s) = false.
Proof.
  intros Hr s Hshown. subst s.
  destruct (reachable_more_invariants _ Hr) as [_ Hload].
  unfold Map_children in Hshown.
  destruct (state_isLoaded (component m)) eqn:E; [|by destruct Hshown].
  destruct (Hload E) as [h Hh]. unfold not_ready, Map_provided. cbn.
  rewrite Hh, E. cbn. split_and!; [by eexists|done|done].
Qed.

(** X14.  A remount gets an engine of its own.  When React runs the held
    cleanup and then the effect again (the container still attached), the
    Map stores a newly constructed engine, different from the one it
    removed; it is the only engine left, React holds a cleanup for it, and
    the loaded flag is false until the new engine loads. *)
Theorem X14_remount_constructs_anew m h :
  reachable remove m →
  held_cleanup m = true →
  mapInstance (component m) = Some h →
  is_Some (mapContainer (component m)) →
  let cleaned := (cleanup remove (component m)).2 in
  let again := initEffect cleaned in
  ∃ h', mapInstance again.1 = Some h' ∧ h' ≠ h ∧
        engines again.1 = [h'] ∧ again.2 = true ∧ state_isLoaded again.1 = false.
Proof.
  intros Hr Hheld Hi [c Hc] cleaned again. subst again cleaned.
  destruct (reachable_more_invariants _ Hr) as [[_ Hst] _].
  destruct (reachable_invariant _ _ Hr) as [Hone _].
  rewrite (cleanup_stored _ _ _ Hi). cbn [snd]. unfold initEffect. cbn. rewrite Hc. cbn.
  exists (constructed (component m)). split_and!; [done| |  |done|done].
  - specialize (Hst h Hi). lia.
  - rewrite Hone, Hi. cbn. by rewrite decide_False by (intros Hn; by apply Hn).
Qed.

End MapThemeFacts.

(** ** Markers *)

Section MarkerFacts.
Import Js Jsx MapWidget Markers.
Variable cn : list value → string.

Lemma marker_invariant_step m m' :
  marker_invariant m → marker_step m m' → marker_invariant m'.
Proof.
  intros (Hone & Hboth & Hheld) Hstep.
  destruct Hstep as [context h s|s]; unfold marker_invariant in *;
    cbn [marker_state marker_cleanup_held] in *.
  - assert (Hnone : markerRef s = None).
    { destruct (markerRef s) eqn:E; [|done].
      assert (false = true) by (apply Hheld; by eexists). done. }
    unfold marker_effect. destruct (not_ready context); cbn.
    + split_and!; [done|done|]. by rewrite Hnone.
    + rewrite Hone, Hnone. cbn. split_and!; [done| |]; split; intros; by eexists.
  - destruct Hheld as [Hheld _]. destruct (Hheld eq_refl) as [mk Hmk].
    unfold marker_cleanup. rewrite Hmk. cbn. rewrite Hone, Hmk. cbn.
    rewrite decide_False by (intros Hn; by apply Hn).
    split_and!; [done|done|]. split; [done|]. by intros [? [=]].
Qed.

Lemma marker_reachable_invariant m : marker_reachable m → marker_invariant m.
Proof.
  unfold marker_reachable. intros H.
  eapply (rtc_ind_r (λ m, marker_invariant m)); [| |exact H].
  - unfold marker_invariant. cbn.
    split_and!; [done|done|]. split; [done|]. by intros [? [=]].
  - intros y z _ Hstep IH. by eapply marker_invariant_step.
Qed.

(** X15.  A MapMarker keeps at most one marker on the map, the one it
    stores; the marker and its element are made and forgotten together;
    and whenever MapMarker renders its children, the marker context it
    provides holds both the marker and the element. *)
Theorem X15_one_marker_per_MapMarker m context :
  marker_reachable m →
  let s := marker_state m in
  (length (on_map s) ≤ 1)%nat ∧
  on_map s = option_list (markerRef s) ∧
  (is_Some (markerRef s) ↔ is_Some (markerElementRef s)) ∧
  (∀ provided, MapMarker context s = Some provided →
     is_Some (marker provided) ∧ is_Some (markerElement provided)) ∧
  on_map (marker_cleanup s) = [] ∧ markerRef (marker_cleanup s) = None ∧
  markerElementRef (marker_cleanup s) = None.
Proof.
  intros Hr s. subst s. destruct (marker_reachable_invariant _ Hr) as (Hone & Hboth & _).
  destruct m as [s held]. cbn [marker_state] in *. split_and!.
  - rewrite Hone. destruct (markerRef s); cbn; lia.
  - done.
  - done.
  - intros provided. unfold MapMarker.
    destruct (isLoaded context); cbn; [|done].
    case_bool_decide as He; cbn; [|done]. intros [= <-]. cbn.
    split; [by apply Hboth|done].
  - unfold marker_cleanup. destruct (markerRef s) as [mk|] eqn:E; cbn.
    + rewrite Hone. cbn. by rewrite decide_False by (intros Hn; by apply Hn).
    + by rewrite Hone.
  - unfold marker_cleanup. by destruct (markerRef s).
  - unfold marker_cleanup. by destruct (markerRef s).
Qed.

(** X16.  MarkerContent and MarkerLabel render nothing, and do not
    throw, when there is no marker element in their context, in particular
    outside every MapMarker; under a MapMarker that renders its children
    they render into that marker's element, the content drawing the
    default dot when it has no children and the label taking the top
    position when none is given. *)
Theorem X16_marker_children_render_into_the_marker {C} context s provided amb
    className (children : option C) position (text : C) :
  (MarkerProvider amb = None →
     MarkerContent cn amb className children = None ∧
     MarkerLabel cn amb className position text = None) ∧
  (MapMarker context s = Some provided →
     let inside := under_MapMarker (marker provided) (markerElement provided) amb in
     ∃ el, markerElementRef s = Some el ∧
       (portal_container _ <$> MarkerContent cn inside className children) = Some el ∧
       (portal_container _ <$> MarkerLabel cn inside className position text) = Some el ∧
       ((λ p, echildren (portal_content _ p)) <$> MarkerContent cn inside className children)
         = Some (match children with Some c => Given c | None => DefaultDot end) ∧
       (position = None →
          "-top-8" ∈ class_names (MarkerLabel_classes className position))).
Proof.
  assert (Htop : position = None →
            "-top-8" ∈ class_names (MarkerLabel_classes className position)).
  { intros ->. unfold MarkerLabel_classes. cbn [default].
    rewrite class_names_cons, elem_of_app. right.
    rewrite class_names_cons, elem_of_app. left. by apply (bool_decide_unpack _). }
  split.
  - intros H. unfold MarkerContent, MarkerLabel, context_markerElement. by rewrite H.
  - unfold MapMarker. destruct (isLoaded context); cbn -[class_names]; [|done].
    case_bool_decide as He; cbn -[class_names]; [|done]. intros [= <-].
    destruct He as [el Hel]. exists el.
    unfold MarkerContent, MarkerLabel, context_markerElement.
    cbn -[class_names]. rewrite Hel. cbn -[class_names].
    split_and!; done.
Qed.

Lemma popup_handle_keeps ev s mk p :
  registered s = Some (HandleClick false (Some mk)) → popupRef s = Some p →
  let r := popup_handle ev s in
  registered r.1 = Some (HandleClick false (Some mk)) ∧ popupRef r.1 = Some p ∧
  (PopupRemove ∉ r.2) ∧
  length (filter (λ c, c = PopupAddTo) r.2) = (if decide (ev = MarkerClicked) then 1 else 0)%nat ∧
  (ev = MarkerClicked → popup_isOpen r.1 = true).
Proof.
  intros Hreg Hp r. subst r. destruct ev; cbn.
  - rewrite Hreg, Hp. cbn. split_and!; [done|done| |done|done].
    by apply (bool_decide_unpack _).
  - split_and!; [done|done| |done|done]. by apply (bool_decide_unpack _).
Qed.

Lemma popup_run_opens_only evs s mk p :
  registered s = Some (HandleClick false (Some mk)) → popupRef s = Some p →
  let r := popup_run evs s in
  registered r.1 = Some (HandleClick false (Some mk)) ∧ popupRef r.1 = Some p ∧
  (PopupRemove ∉ r.2) ∧
  length (filter (λ c, c = PopupAddTo) r.2) = length (filter (λ ev, ev = MarkerClicked) evs).
Proof.
  revert s. induction evs as [|ev rest IH]; intros s Hreg Hp; cbn [popup_run].
  - cbn. split_and!; [done|done|apply not_elem_of_nil|done].
  - destruct (popup_handle_keeps ev s mk p Hreg Hp) as (Hreg1 & Hp1 & Hno1 & Hadd1 & _).
    destruct (popup_handle ev s) as [s1 calls1]. cbn [fst snd] in *.
    destruct (IH s1 Hreg1 Hp1) as (Hreg2 & Hp2 & Hno2 & Hadd2).
    destruct (popup_run rest s1) as [s2 calls2]. cbn [fst snd] in *.
    split_and!; [done|done| |].
    + rewrite elem_of_app. tauto.
    + rewrite filter_app, length_app, Hadd1, Hadd2, filter_cons.
      by destruct (decide (ev = MarkerClicked)).
Qed.

(** X17.  The click listener of a MarkerPopup keeps the [isOpen] of the
    render its effect ran in, and [isOpen] is not a dependency of that
    effect.  So after the effect has run on mount, where [isOpen] is false,
    every click on the marker opens the popup again and none closes it:
    through any sequence of clicks and popup closings the listener never
    calls [remove()] on the popup, it adds the popup to the map once per
    click, and after a click [isOpen] is true. *)
Theorem X17_marker_click_only_opens map context evs :
  is_Some map → is_Some (marker context) → is_Some (markerElement context) →
  let mounted := popup_effect map context popup_initial in
  let r := popup_run evs mounted in
  (PopupRemove ∉ r.2) ∧
  length (filter (λ c, c = PopupAddTo) r.2) = length (filter (λ ev, ev = MarkerClicked) evs) ∧
  popup_isOpen (popup_handle MarkerClicked r.1).1 = true.
Proof.
  intros [h ->] [mk Hmk] [el Hel] mounted r. subst r mounted.
  unfold popup_effect. rewrite Hmk, Hel.
  match goal with |- context [popup_run evs ?s0] =>
    destruct (popup_run_opens_only evs s0 mk ("popup-of-" +:+ mk) eq_refl eq_refl)
      as (Hreg & Hp & Hno & Hadd);
    destruct (popup_handle_keeps MarkerClicked (popup_run evs s0).1 mk _ Hreg Hp)
      as (_ & _ & _ & _ & Hopen)
  end.
  split_and!; [done|done|by apply Hopen].
Qed.

End MarkerFacts.

(** ** MapRoute and MapClusterLayer: mounting *)

Section MountFacts.
Import Js Imp MapLibre MapWidget EngineUse.

Ltac run_engine :=
  unfold getLayer, getSource, removeLayer, removeSource, addSource, addLayer, on,
    record, fire, set_layers, set_sources, when,
    Imp.bind, Imp.get, Imp.modify, Imp.ret, Imp.throw;
  cbn [sources layers listeners errors calls fst snd negb].

(** The guarded addition of a source never throws. *)
Lemma add_source_if_absent_run id spec m :
  ∃ cs, add_source_if_absent id spec m
  = (Normal tt,
     Engine (if bool_decide (is_Some (sources m !! id)) then sources m
             else <[id := spec]> (sources m))
            (layers m) (listeners m) (errors m) (calls m ++ cs)).
Proof.
  unfold add_source_if_absent. run_engine.
  destruct (sources m !! id) as [x|] eqn:E; cbn; rewrite ?E; eexists; by rewrite <- ?app_assoc.
Qed.

(** The guarded addition of a layer never throws; over a source the map
    has it fires no error either. *)
Lemma add_layer_if_absent_run id spec m :
  is_Some (sources m !! layer_source spec) →
  ∃ cs, add_layer_if_absent id spec m
  = (Normal tt,
     Engine (sources m)
            (if bool_decide (is_Some (layers m !! id)) then layers m
             else <[id := spec]> (layers m))
            (listeners m) (errors m) (calls m ++ cs)).
Proof.
  intros [x Hx]. unfold add_layer_if_absent. run_engine.
  destruct (layers m !! id) as [l|] eqn:E; cbn; rewrite ?E, ?Hx; eexists;
    by rewrite <- ?app_assoc.
Qed.

Lemma listeners_block_run (b : bool) c (regs : list (string * string)) m :
  (∀ m, ∃ cs, c m = (Normal tt,
      Engine (sources m) (layers m) (listeners m ++ regs) (errors m) (calls m ++ cs))) →
  ∃ cs, when b c m
  = (Normal tt,
     Engine (sources m) (layers m) (listeners m ++ (if b then regs else []))
            (errors m) (calls m ++ cs)).
Proof.
  intros Hc. destruct b; cbn; [apply Hc|].
  exists []. unfold Imp.ret. rewrite !app_nil_r. by destruct m.
Qed.

Lemma on_run event layerId m :
  ∃ cs, on event layerId m
  = (Normal tt,
     Engine (sources m) (layers m) (listeners m ++ [(event, layerId)]) (errors m)
            (calls m ++ cs)).
Proof. by eexists. Qed.

Lemma seq_listeners_run c1 c2 (regs1 regs2 : list (string * string)) m :
  (∀ m, ∃ cs, c1 m = (Normal tt,
      Engine (sources m) (layers m) (listeners m ++ regs1) (errors m) (calls m ++ cs))) →
  (∀ m, ∃ cs, c2 m = (Normal tt,
      Engine (sources m) (layers m) (listeners m ++ regs2) (errors m) (calls m ++ cs))) →
  ∃ cs, (c1 ;! c2) m
  = (Normal tt,
     Engine (sources m) (layers m) (listeners m ++ regs1 ++ regs2) (errors m)
            (calls m ++ cs)).
Proof.
  intros H1 H2. destruct (H1 m) as [cs1 E1]. unfold Imp.bind. rewrite E1.
  destruct (H2 (Engine (sources m) (layers m) (listeners m ++ regs1) (errors m)
                  (calls m ++ cs1))) as [cs2 E2].
  rewrite E2. cbn. exists (cs1 ++ cs2). by rewrite !app_assoc.
Qed.

Lemma optional_listener_run handler event layerId m :
  ∃ cs, when (bool_decide (is_Some handler)) (on event layerId) m
  = (Normal tt,
     Engine (sources m) (layers m) (listeners m ++ listener_for handler event layerId)
            (errors m) (calls m ++ cs)).
Proof. apply (listeners_block_run _ _ [(event, layerId)]). intros. apply on_run. Qed.

Lemma MapRoute_listeners_run id interactive onClick onMouseEnter onMouseLeave m :
  ∃ cs, when (default true interactive)
          (MapRoute_listeners (route_layerId id) onClick onMouseEnter onMouseLeave) m
  = (Normal tt,
     Engine (sources m) (layers m)
            (listeners m ++ registered_by_route id interactive onClick onMouseEnter onMouseLeave)
            (errors m) (calls m ++ cs)).
Proof.
  unfold registered_by_route. apply listeners_block_run. clear m. intros m.
  unfold MapRoute_listeners.
  apply seq_listeners_run; [intros; apply optional_listener_run|].
  intros m'. apply seq_listeners_run; intros; apply optional_listener_run.
Qed.

Lemma MapClusterLayer_listeners_run onPointClick onClusterClick m :
  ∃ cs, MapClusterLayer_listeners onPointClick onClusterClick m
  = (Normal tt,
     Engine (sources m) (layers m)
            (listeners m ++ registered_by_cluster onPointClick onClusterClick)
            (errors m) (calls m ++ cs)).
Proof.
  unfold registered_by_cluster, MapClusterLayer_listeners.
  apply seq_listeners_run; [intros; apply optional_listener_run|]. intros m1.
  apply seq_listeners_run; [intros; apply optional_listener_run|]. intros m2.
  apply (seq_listeners_run _ _ [_] [_; _; _]); [intros; apply on_run|]. intros m3.
  apply (seq_listeners_run _ _ [_] [_; _]); [intros; apply on_run|]. intros m4.
  apply (seq_listeners_run _ _ [_] [_]); intros; apply on_run.
Qed.

(** What a MapRoute leaves on any map when it mounts. *)
Lemma MapRoute_effect_run context id interactive onClick onMouseEnter onMouseLeave m :
  not_ready context = false →
  ∃ cs, MapRoute_effect context id interactive onClick onMouseEnter onMouseLeave m
  = (Normal true,
     Engine (if bool_decide (is_Some (sources m !! route_sourceId id)) then sources m
             else <[route_sourceId id := Source "geojson" false]> (sources m))
            (if bool_decide (is_Some (layers m !! route_layerId id)) then layers m
             else <[route_layerId id := Layer "line" (route_sourceId id)]> (layers m))
            (listeners m ++ registered_by_route id interactive onClick onMouseEnter onMouseLeave)
            (errors m) (calls m ++ cs)).
Proof.
  intros Hready. unfold MapRoute_effect. rewrite Hready.
  destruct (add_source_if_absent_run (route_sourceId id) (Source "geojson" false) m)
    as [cs1 E1].
  rewrite (bind_normal _ _ _ _ _ E1).
  match goal with |- context [Imp.bind (add_layer_if_absent ?l ?spec) _ ?m1] =>
    destruct (add_layer_if_absent_run l spec m1) as [cs2 E2]
  end.
  { cbn. case_bool_decide as Hs; [done|]. rewrite lookup_insert_eq. by eexists. }
  rewrite (bind_normal _ _ _ _ _ E2).
  match goal with |- context [Imp.bind (when ?b ?c) _ ?m2] =>
    destruct (MapRoute_listeners_run id interactive onClick onMouseEnter onMouseLeave m2)
      as [cs3 E3]
  end.
  rewrite (bind_normal _ _ _ _ _ E3). cbn.
  exists (cs1 ++ cs2 ++ cs3). unfold Imp.ret. by rewrite !app_assoc.
Qed.

(** Adding a layer never throws and touches neither sources nor
    listeners. *)
Lemma addLayer_run id spec m :
  ∃ m', addLayer id spec m = (Normal tt, m') ∧
        sources m' = sources m ∧ listeners m' = listeners m ∧
        (layers m' = layers m ∨
         (layers m' = <[id := spec]> (layers m) ∧ is_Some (sources m !! layer_source spec))).
Proof.
  run_engine. destruct (layers m !! id) as [l|]; [|destruct (sources m !! layer_source spec) eqn:E];
    eexists; (split; [reflexivity|]); cbn; split_and!; try done; try by left.
  right. split; [done|by eexists].
Qed.

(** What a MapClusterLayer leaves on a map whose "clusters" source id is
    free. *)
Lemma MapClusterLayer_effect_run context onPointClick onClusterClick m :
  not_ready context = false →
  sources m !! cluster_sourceId = None →
  ∃ m', MapClusterLayer_effect context onPointClick onClusterClick m = (Normal true, m') ∧
        sources m' = <[cluster_sourceId := Source "geojson" true]> (sources m) ∧
        listeners m' = listeners m ++ registered_by_cluster onPointClick onClusterClick.
Proof.
  intros Hready Hfree. unfold MapClusterLayer_effect. rewrite Hready.
  rewrite (bind_normal _ _ _ _ _ (addSource_fresh _ _ _ Hfree)).
  match goal with |- context [Imp.bind (addLayer ?l ?spec) _ ?m1] =>
    destruct (addLayer_run l spec m1) as (m1' & E1 & Hs1 & Hl1 & _)
  end.
  rewrite (bind_normal _ _ _ _ _ E1).
  destruct (addLayer_run clusterCountLayerId (Layer "symbol" cluster_sourceId) m1')
    as (m2' & E2 & Hs2 & Hl2 & _).
  rewrite (bind_normal _ _ _ _ _ E2).
  destruct (addLayer_run pointLayerId (Layer "circle" cluster_sourceId) m2')
    as (m3' & E3 & Hs3 & Hl3 & _).
  rewrite (bind_normal _ _ _ _ _ E3).
  destruct (MapClusterLayer_listeners_run onPointClick onClusterClick m3') as [cs E4].
  rewrite (bind_normal _ _ _ _ _ E4). eexists. split; [reflexivity|]. cbn.
  cbn in Hs1, Hl1. split; [by rewrite Hs3, Hs2, Hs1 | by rewrite Hl3, Hl2, Hl1].
Qed.

(** X18.  Neither cleanup unregisters a listener.  A MapRoute registers
    one listener per handler it is given when it is interactive (none when
    it is not), a MapClusterLayer its two optional click listeners and four
    cursor listeners; both cleanups leave the map's listeners as they find
    them, so after mounting and unmounting the listeners registered at
    mount are still on the map. *)
Theorem X18_listeners_outlive_the_component context id interactive
    onClick onMouseEnter onMouseLeave onPointClick onClusterClick m :
  not_ready context = false →
  let route := (MapRoute_effect context id interactive onClick onMouseEnter onMouseLeave m).2 in
  let cluster := (MapClusterLayer_effect context onPointClick onClusterClick m).2 in
  listeners (MapRoute_cleanup id m).2 = listeners m ∧
  listeners (MapClusterLayer_cleanup m).2 = listeners m ∧
  listeners (MapRoute_cleanup id route).2
    = listeners m ++ registered_by_route id interactive onClick onMouseEnter onMouseLeave ∧
  (sources m !! cluster_sourceId = None →
   listeners (MapClusterLayer_cleanup cluster).2
     = listeners m ++ registered_by_cluster onPointClick onClusterClick).
Proof.
  intros Hready route cluster. subst route cluster. split_and!.
  - by rewrite MapRoute_cleanup_run.
  - by rewrite MapClusterLayer_cleanup_run.
  - destruct (MapRoute_effect_run context id interactive onClick onMouseEnter onMouseLeave
                m Hready) as [cs ->].
    by rewrite MapRoute_cleanup_run.
  - intros Hfree.
    destruct (MapClusterLayer_effect_run context onPointClick onClusterClick m Hready Hfree)
      as (m' & -> & _ & Hl).
    by rewrite MapClusterLayer_cleanup_run.
Qed.

(** X20.  A MapClusterLayer mounts on a fixed source id.  On a ready map
    that already has a source "clusters" its effect throws when it adds the
    source, before it adds a layer or registers a listener, and so returns
    no cleanup; in particular a second MapClusterLayer on the map of a
    first one throws when it mounts. *)
Theorem X20_second_cluster_layer_throws context onPointClick onClusterClick m :
  not_ready context = false →
  let r := MapClusterLayer_effect context onPointClick onClusterClick m in
  (is_Some (sources m !! cluster_sourceId) →
     throws r.1 = true ∧ sources r.2 = sources m ∧ layers r.2 = layers m ∧
     listeners r.2 = listeners m ∧ errors r.2 = errors m) ∧
  (sources m !! cluster_sourceId = None →
     r.1 = Normal true ∧
     ∀ onPointClick' onClusterClick',
       throws (MapClusterLayer_effect context onPointClick' onClusterClick' r.2).1 = true).
Proof.
  intros Hready r. subst r. split.
  - intros [x Hx]. unfold MapClusterLayer_effect. rewrite Hready.
    run_engine. by rewrite Hx.
  - intros Hfree.
    destruct (MapClusterLayer_effect_run context onPointClick onClusterClick m Hready Hfree)
      as (m' & -> & Hs & _).
    split; [done|]. intros p c. cbn [snd].
    unfold MapClusterLayer_effect. rewrite Hready. run_engine.
    rewrite Hs, lookup_insert_eq. done.
Qed.

(** Each call on the engine keeps the map consistent. *)
Lemma keeps_consistent_ret {A} (a : A) : keeps_consistent (Imp.ret a).
Proof. by intros m. Qed.

Lemma keeps_consistent_bind {A B} (c : M engine A) (k : A → M engine B) :
  keeps_consistent c → (∀ a, keeps_consistent (k a)) → keeps_consistent (Imp.bind c k).
Proof.
  intros Hc Hk m Hm. specialize (Hc m Hm). unfold Imp.bind.
  destruct (c m) as [[a|t] m1]; cbn in *; [by apply Hk|done].
Qed.

Lemma keeps_consistent_when b (c : M engine unit) :
  keeps_consistent c → keeps_consistent (when b c).
Proof. intros H. destruct b; [done|apply keeps_consistent_ret]. Qed.

Lemma keeps_consistent_getSource id : keeps_consistent (getSource id).
Proof. by intros m. Qed.

Lemma keeps_consistent_getLayer id : keeps_consistent (getLayer id).
Proof. by intros m. Qed.

Lemma keeps_consistent_on event layerId : keeps_consistent (on event layerId).
Proof. by intros m. Qed.

Lemma keeps_consistent_addSource id spec : keeps_consistent (addSource id spec).
Proof.
  intros m Hm. run_engine. destruct (sources m !! id) as [x|] eqn:E; [done|].
  unfold consistent in *. cbn. intros i l Hl. specialize (Hm i l Hl). cbn in Hm.
  destruct (decide (layer_source l = id)) as [->|Hne].
  - rewrite lookup_insert_eq. by eexists.
  - by rewrite lookup_insert_ne.
Qed.

Lemma keeps_consistent_addLayer id spec : keeps_consistent (addLayer id spec).
Proof.
  intros m Hm. run_engine.
  destruct (layers m !! id) as [l|] eqn:E; [done|].
  destruct (sources m !! layer_source spec) as [x|] eqn:Es; [|done].
  unfold consistent in *. cbn. apply map_Forall_insert; [done|].
  split; [by eexists|done].
Qed.

Lemma keeps_consistent_removeLayer id : keeps_consistent (removeLayer id).
Proof.
  intros m Hm. run_engine. destruct (layers m !! id) as [l|] eqn:E; [|done].
  unfold consistent in *. cbn. by apply map_Forall_delete.
Qed.

Lemma keeps_consistent_removeSource id : keeps_consistent (removeSource id).
Proof.
  intros m Hm. run_engine. destruct (sources m !! id) as [x|] eqn:E; [|done].
  unfold in_use. cbn [layers]. case_bool_decide as Hu; [done|].
  unfold consistent in *. cbn. intros i l Hl. specialize (Hm i l Hl). cbn in Hm.
  rewrite lookup_delete_ne; [done|]. intros Heq. apply Hu. by exists i, l.
Qed.

(** MapRoute and MapClusterLayer keep the map consistent: if every layer
    of the map draws from a source the map has, that is still so after
    either component mounts and after either cleanup, also when the mount
    throws and whatever else the map holds. *)
Lemma components_keep_the_map_consistent context id interactive
    onClick onMouseEnter onMouseLeave onPointClick onClusterClick m :
  consistent m →
  consistent (MapRoute_effect context id interactive onClick onMouseEnter onMouseLeave m).2 ∧
  consistent (MapRoute_cleanup id m).2 ∧
  consistent (MapClusterLayer_effect context onPointClick onClusterClick m).2 ∧
  consistent (MapClusterLayer_cleanup m).2.
Proof.
  intros Hm.
  assert (Hsolve : ∀ (c : M engine unit), keeps_consistent c → consistent (c m).2)
    by (intros c Hc; by apply Hc).
  assert (Hsolveb : ∀ (c : M engine bool), keeps_consistent c → consistent (c m).2)
    by (intros c Hc; by apply Hc).
  split_and!.
  - apply Hsolveb. unfold MapRoute_effect, add_source_if_absent, add_layer_if_absent,
      MapRoute_listeners.
    destruct (not_ready context); [apply keeps_consistent_ret|].
    repeat first
      [ apply keeps_consistent_ret | apply keeps_consistent_getSource
      | apply keeps_consistent_getLayer | apply keeps_consistent_on
      | apply keeps_consistent_addSource | apply keeps_consistent_addLayer
      | apply keeps_consistent_when | apply keeps_consistent_bind; [|intros ?] ].
  - apply Hsolve. unfold MapRoute_cleanup, remove_layer_if_present, remove_source_if_present.
    repeat first
      [ apply keeps_consistent_ret | apply keeps_consistent_getSource
      | apply keeps_consistent_getLayer
      | apply keeps_consistent_removeSource | apply keeps_consistent_removeLayer
      | apply keeps_consistent_when | apply keeps_consistent_bind; [|intros ?] ].
  - apply Hsolveb. unfold MapClusterLayer_effect, MapClusterLayer_listeners.
    destruct (not_ready context); [apply keeps_consistent_ret|].
    repeat first
      [ apply keeps_consistent_ret | apply keeps_consistent_on
      | apply keeps_consistent_addSource | apply keeps_consistent_addLayer
      | apply keeps_consistent_when | apply keeps_consistent_bind; [|intros ?] ].
  - apply Hsolve. unfold MapClusterLayer_cleanup, remove_layer_if_present,
      remove_source_if_present.
    repeat first
      [ apply keeps_consistent_ret | apply keeps_consistent_getSource
      | apply keeps_consistent_getLayer
      | apply keeps_consistent_removeSource | apply keeps_consistent_removeLayer
      | apply keeps_consistent_when | apply keeps_consistent_bind; [|intros ?] ].
Qed.

End MountFacts.

(** ** The properties above at concrete inputs *)

Lemma X13_children_see_a_map_witness :
  let s := MapWidget.onLoad
             (MapWidget.initEffect (MapWidget.set_container (Some "map") MapWidget.initial)).1 in
  MapWidget.not_ready (MapWidget.Map_provided s) = false.
Proof.
  assert (Hr : MapWidget.reachable (λ _, Js.Normal tt)
                 {| MapWidget.component :=
                      MapWidget.onLoad
                        (MapWidget.initEffect
                           (MapWidget.set_container (Some "map") MapWidget.initial)).1;
                    MapWidget.held_cleanup := true |}).
  { eapply rtc_l; [apply (MapWidget.step_ref _ (Some "map"))|].
    eapply rtc_l; [apply MapWidget.step_effect|].
    eapply rtc_l; [apply (MapWidget.step_load _ _ _ 0%nat); by left|]. apply rtc_refl. }
  destruct (X13_children_see_a_map (C:=unit) _ _ tt Hr) as (_ & _ & H); [by eexists|].
  exact H.
Defined.

Lemma X14_remount_constructs_anew_witness :
  let s := (MapWidget.initEffect (MapWidget.set_container (Some "map") MapWidget.initial)).1 in
  let again := MapWidget.initEffect (MapWidget.cleanup (λ _, Js.Normal tt) s).2 in
  ∃ h', MapWidget.mapInstance again.1 = Some h' ∧ h' ≠ 0%nat ∧
        MapWidget.engines again.1 = [h'] ∧ again.2 = true ∧
        MapWidget.state_isLoaded again.1 = false.
Proof.
  assert (Hr : MapWidget.reachable (λ _, Js.Normal tt)
                 {| MapWidget.component :=
                      (MapWidget.initEffect
                         (MapWidget.set_container (Some "map") MapWidget.initial)).1;
                    MapWidget.held_cleanup := true |}).
  { eapply rtc_l; [apply (MapWidget.step_ref _ (Some "map"))|].
    eapply rtc_l; [apply MapWidget.step_effect|]. apply rtc_refl. }
  apply (X14_remount_constructs_anew _ _ 0%nat Hr); [reflexivity | reflexivity | by eexists].
Defined.

Lemma X15_one_marker_per_MapMarker_witness :
  let ready := {| MapWidget.map := Some 0%nat; MapWidget.isLoaded := true |} in
  let handlers := Markers.Build_marker_handlers (Some "onClick") None None None None None in
  let s := (Markers.marker_effect ready handlers Markers.unmounted).1 in
  (length (Markers.on_map s) ≤ 1)%nat ∧ Markers.on_map (Markers.marker_cleanup s) = [].
Proof.
  assert (Hr : Markers.marker_reachable
                 {| Markers.marker_state :=
                      (Markers.marker_effect
                         {| MapWidget.map := Some 0%nat; MapWidget.isLoaded := true |}
                         (Markers.Build_marker_handlers (Some "onClick") None None None None None)
                         Markers.unmounted).1;
                    Markers.marker_cleanup_held := true |}).
  { eapply rtc_l; [|apply rtc_refl].
    exact (Markers.marker_step_effect
             {| MapWidget.map := Some 0%nat; MapWidget.isLoaded := true |}
             (Markers.Build_marker_handlers (Some "onClick") None None None None None)
             Markers.unmounted). }
  destruct (X15_one_marker_per_MapMarker _
              {| MapWidget.map := Some 0%nat; MapWidget.isLoaded := true |} Hr)
    as (Hle & _ & _ & _ & Hoff & _).
  split; [exact Hle | exact Hoff].
Defined.

Lemma X16_marker_children_render_into_the_marker_witness :
  Markers.MarkerContent (C:=string) Js.clsx MapWidget.outside Js.VUndefined None = None ∧
  Markers.MarkerLabel Js.clsx MapWidget.outside Js.VUndefined None "Depot" = None.
Proof.
  apply (proj1 (X16_marker_children_render_into_the_marker Js.clsx
                  {| MapWidget.map := None; MapWidget.isLoaded := false |} Markers.unmounted
                  {| MapWidget.marker := None; MapWidget.markerElement := None |}
                  MapWidget.outside Js.VUndefined None None "Depot")).
  reflexivity.
Defined.

Lemma X17_marker_click_only_opens_witness :
  let context := {| MapWidget.marker := Some "marker-0";
                    MapWidget.markerElement := Some "marker-element-0" |} in
  let mounted := Markers.popup_effect (Some 0%nat) context Markers.popup_initial in
  let r := Markers.popup_run [Markers.MarkerClicked; Markers.MarkerClicked] mounted in
  (Markers.PopupRemove ∉ r.2) ∧ Markers.popup_isOpen r.1 = true.
Proof.
  destruct (X17_marker_click_only_opens (Some 0%nat)
              {| MapWidget.marker := Some "marker-0";
                 MapWidget.markerElement := Some "marker-element-0" |}
              [Markers.MarkerClicked; Markers.MarkerClicked])
    as (Hno & _ & _); [by eexists..|].
  split; [exact Hno | reflexivity].
Defined.

Lemma X18_listeners_outlive_the_component_witness :
  let ready := {| MapWidget.map := Some 0%nat; MapWidget.isLoaded := true |} in
  let mounted := (MapWidget.MapRoute_effect ready "a" None (Some "onClick") None None
                    MapLibre.empty).2 in
  MapLibre.listeners (MapWidget.MapRoute_cleanup "a" mounted).2 = [("click", "route-layer-a")].
Proof.
  destruct (X18_listeners_outlive_the_component
              {| MapWidget.map := Some 0%nat; MapWidget.isLoaded := true |}
              "a" None (Some "onClick") None None None None MapLibre.empty eq_refl)
    as (_ & _ & H & _).
  exact H.
Defined.

Lemma X20_second_cluster_layer_throws_witness :
  let ready := {| MapWidget.map := Some 0%nat; MapWidget.isLoaded := true |} in
  let first := MapWidget.MapClusterLayer_effect ready None None MapLibre.empty in
  first.1 = Js.Normal true ∧
  Js.throws (MapWidget.MapClusterLayer_effect ready None None first.2).1 = true.
Proof.
  destruct (X20_second_cluster_layer_throws
              {| MapWidget.map := Some 0%nat; MapWidget.isLoaded := true |}
              None None MapLibre.empty eq_refl) as (_ & H).
  destruct (H eq_refl) as (H1 & H2). split; [exact H1 | exact (H2 None None)].
Defined.
